(** * HCP dashboard: ranking, segmentation and channel affinity

    A shallow embedding of [hcp_utils.py] (and of the pipeline at the top of
    [app.py]) together with the fragment of pandas and numpy these functions
    call.  Tables are Python objects that the code mutates in place, so the
    functions run in a store of frames addressed by reference. *)

From Stdlib Require Import String Ascii ZArith Bool Arith Lia.
From Stdlib Require Import List Permutation Sorted FinFun.
From Stdlib Require Import DecimalString DecimalZ DecimalPos.
Import ListNotations.
Local Open Scope string_scope.
Local Open Scope list_scope.
Local Open Scope Z_scope.

(** ** Exceptions and results *)

(** The Python exceptions the modelled fragment can raise.  [PatternError]
    is [re.error] ([re.PatternError] from Python 3.13 on).  [ReferenceError]
    stands for following a reference to no object, which no Python program
    can do; it only makes the store total. *)
Inductive exn : Type :=
| ValueError
| KeyError
| IndexError
| AttributeError
| PatternError
| ReferenceError.

Definition result (A : Type) : Type := (exn + A)%type.

Definition rbind {A B} (r : result A) (k : A -> result B) : result B :=
  match r with
  | inl e => inl e
  | inr a => k a
  end.

(** ** Data model *)

(** One row of the five base columns ['NPI Id'], ['speciality'], ['rx value'],
    ['state_code'], ['writing_behavior'].  ['rx value'] is an int64 column
    (the generator ends with [.astype(int)], and [read_excel] reads whole
    numbers as int64): a cell is an integer from [-2^63] to [2^63 - 1]
    ([int64_column] below). *)
Record hcp : Type := mk_hcp {
  npi_id : string;
  speciality : string;
  rx_value : Z;
  state_code : string;
  writing_behavior : string
}.

(** A frame: the rows of the base columns and the derived columns, each of
    which is absent ([None]) until the pipeline adds it.  A cell of ['score']
    or ['segment'] is [None] when it is NaN.  The row index is not modelled:
    every frame the code reads an index from has just been through
    [reset_index(drop=True)], whose index is [0 .. N-1]. *)
Record DataFrame : Type := mk_df {
  records : list hcp;
  score : option (list (option Z));
  priority_rank : option (list Z);
  segment : option (list (option string))
}.

Definition base_table (rows : list hcp) : DataFrame :=
  mk_df rows None None None.

Definition len (d : DataFrame) : nat := length (records d).

Definition column {A} (f : hcp -> A) (d : DataFrame) : list A :=
  map f (records d).

Definition set_score (d : DataFrame) (s : list (option Z)) : DataFrame :=
  mk_df (records d) (Some s) (priority_rank d) (segment d).

Definition set_priority_rank (d : DataFrame) (r : list Z) : DataFrame :=
  mk_df (records d) (score d) (Some r) (segment d).

Definition set_segment (d : DataFrame) (s : list (option string)) : DataFrame :=
  mk_df (records d) (score d) (priority_rank d) (Some s).

(** [df[name]] on a derived column: [KeyError] when the column is absent. *)
Definition getitem {A} (c : option (list A)) : result (list A) :=
  match c with
  | None => inl KeyError
  | Some l => inr l
  end.

(** ** The pandas and numpy fragment *)

(** A [dict] with string keys, and [Series.map(dict)]: a key that is not in
    the dict maps to NaN. *)
Fixpoint dict_get (d : list (string * Z)) (k : string) : option Z :=
  match d with
  | [] => None
  | (k', v) :: d' => if String.eqb k' k then Some v else dict_get d' k
  end.

Definition Series_map (d : list (string * Z)) (s : list string) : list (option Z) :=
  map (dict_get d) s.

Definition isna {A} (c : option A) : bool :=
  match c with
  | None => true
  | Some _ => false
  end.

(** The range of an int64, and the product of two of them: the low 64 bits
    of the exact product, read as a signed number. *)
Definition int64 (z : Z) : Prop := - 2 ^ 63 <= z < 2 ^ 63.

Definition wrap_int64 (z : Z) : Z := (z + 2 ^ 63) mod 2 ^ 64 - 2 ^ 63.

Definition int64_mul (x y : Z) : Z := wrap_int64 (x * y).

(** The float64 nearest to an integer, a half-way case going to the even
    significand of 53 bits; every integer below [2^53] in magnitude is a
    float64.  (No integer met here comes near the largest float64.) *)
Definition to_float64 (z : Z) : Z :=
  let a := Z.abs z in
  if a <? 2 ^ 53 then z
  else
    let e := Z.log2 a - 52 in
    let q := a / 2 ^ e in
    let r := a mod 2 ^ e in
    let half := 2 ^ (e - 1) in
    let q := if (half <? r) || ((r =? half) && Z.odd q) then q + 1 else q in
    Z.sgn z * (q * 2 ^ e).

(** The product of an int64 and a float64 that holds an integer: the int64
    is converted, and the exact product of the two float64 is rounded. *)
Definition float64_mul (x y : Z) : Z :=
  to_float64 (to_float64 x * to_float64 y).

(** Element-wise product of an int64 column and the column [Series.map]
    made with a dict of integers.  That column is int64 when none of its
    cells is NaN, and the product is then the int64 one; it is float64 as
    soon as one cell is NaN, and then every product is the float64 one, NaN
    wherever the right factor is NaN. *)
Definition Series_mul (a : list Z) (b : list (option Z)) : list (option Z) :=
  let mul := if existsb isna b then float64_mul else int64_mul in
  map (fun p => option_map (mul (fst p)) (snd p)) (combine a b).

(** Positional selection ([take], and numpy's indexing by an integer array):
    [IndexError] on a position past the end. *)
Fixpoint take {A} (l : list A) (ix : list nat) : result (list A) :=
  match ix with
  | [] => inr []
  | i :: ix' =>
      match nth_error l i with
      | None => inl IndexError
      | Some x => rbind (take l ix') (fun r => inr (x :: r))
      end
  end.

Definition take_opt {A} (c : option (list A)) (ix : list nat)
  : result (option (list A)) :=
  match c with
  | None => inr None
  | Some l => rbind (take l ix) (fun r => inr (Some r))
  end.

(** The positions and values of the cells that are not NaN, and the
    positions of those that are, both in increasing position. *)
Fixpoint non_nan_from (i : nat) (items : list (option Z)) : list (nat * Z) :=
  match items with
  | [] => []
  | Some v :: items' => (i, v) :: non_nan_from (S i) items'
  | None :: items' => non_nan_from (S i) items'
  end.

Fixpoint nan_idx_from (i : nat) (items : list (option Z)) : list nat :=
  match items with
  | [] => []
  | Some _ :: items' => nan_idx_from (S i) items'
  | None :: items' => i :: nan_idx_from (S i) items'
  end.

Section Sorting.

(** [ndarray.argsort(kind='quicksort')], the kind [sort_values] uses when
    none is given.  Which algorithm runs depends on the numpy build; what
    every one of them returns is the positions of the array in an order
    that makes the values ascend ([argsort_spec] below). *)
Variable argsort : list Z -> list nat.

(** [nargsort(items, kind, ascending=False, na_position='last')]: the cells
    that are not NaN are reversed, sorted ascending, reversed again, and
    the positions of the NaN cells are appended. *)
Definition nargsort (items : list (option Z)) : result (list nat) :=
  let nn := non_nan_from 0 items in
  let non_nans := rev (map snd nn) in
  let non_nan_idx := rev (map fst nn) in
  let nan_idx := nan_idx_from 0 items in
  rbind (take non_nan_idx (argsort non_nans)) (fun indexer =>
  inr (rev indexer ++ nan_idx)).

(** [df.sort_values('score', ascending=False)]: a new frame with every
    column reordered by the indexer. *)
Definition sort_values_score (d : DataFrame) : result DataFrame :=
  rbind (getitem (score d)) (fun k =>
  rbind (nargsort k) (fun indexer =>
  rbind (take (records d) indexer) (fun rs =>
  rbind (take k indexer) (fun sc =>
  rbind (take_opt (priority_rank d) indexer) (fun pr =>
  rbind (take_opt (segment d) indexer) (fun sg =>
  inr (mk_df rs (Some sc) pr sg))))))).

End Sorting.

(** [df.index] after [reset_index(drop=True)]. *)
Definition RangeIndex (d : DataFrame) : list Z :=
  map Z.of_nat (seq 0 (len d)).

(** [Index.is_monotonic_increasing] (not strict). *)
Fixpoint is_monotonic_increasing (l : list Z) : bool :=
  match l with
  | [] => true
  | x :: l' =>
      match l' with
      | [] => true
      | y :: _ => (x <=? y) && is_monotonic_increasing l'
      end
  end.

(** [algos.unique]: the distinct values, each where it first appears. *)
Fixpoint unique (l : list Z) : list Z :=
  match l with
  | [] => []
  | x :: l' => x :: filter (fun y => negb (y =? x)) (unique l')
  end.

(** [bins.searchsorted(x, side='left')] on ascending [bins]: the number of
    edges strictly below [x]. *)
Definition searchsorted_left (bins : list Z) (x : Z) : nat :=
  length (filter (fun b => b <? x) bins).

(** [pd.cut(x, bins=bins, labels=labels, include_lowest=...)] with a list of
    edges, [right=True] and [duplicates='raise']: edges that decrease, edges
    that repeat (unless there are just two) and a wrong number of labels are
    each a [ValueError]; a value in no interval is NaN. *)
Definition cut (x : list Z) (bins : list Z) (labels : list string)
    (include_lowest : bool) : result (list (option string)) :=
  if negb (is_monotonic_increasing bins) then inl ValueError
  else if (length (unique bins) <? length bins)%nat
          && negb (length bins =? 2)%nat then inl ValueError
  else if negb (length labels =? length bins - 1)%nat then inl ValueError
  else
    inr (map (fun v =>
           let ids := searchsorted_left bins v in
           let ids := if include_lowest && (v =? hd 0 bins) then 1%nat else ids in
           if (ids =? length bins)%nat || (ids =? 0)%nat then None
           else nth_error labels (ids - 1)) x).

(** ** The store *)

Definition ref : Type := nat.
Definition heap : Type := list DataFrame.

(** A computation reads and writes the store and returns or raises; what it
    wrote before raising stays written. *)
Definition M (A : Type) : Type := heap -> result A * heap.

Definition ret {A} (a : A) : M A := fun h => (inr a, h).

Definition bind {A B} (m : M A) (k : A -> M B) : M B :=
  fun h =>
    match m h with
    | (inl e, h') => (inl e, h')
    | (inr a, h') => k a h'
    end.

Notation "x <- m ;; k" := (bind m (fun x => k))
  (at level 61, m at next level, right associativity).
Notation "m ;;; k" := (bind m (fun _ => k))
  (at level 61, right associativity).

Definition lift {A} (r : result A) : M A := fun h => (r, h).

Definition deref (l : ref) : M DataFrame :=
  fun h =>
    match nth_error h l with
    | Some d => (inr d, h)
    | None => (inl ReferenceError, h)
    end.

Fixpoint replace_nth (h : heap) (l : ref) (d : DataFrame) : heap :=
  match h, l with
  | [], _ => []
  | _ :: h', O => d :: h'
  | x :: h', S l' => x :: replace_nth h' l' d
  end.

(** In-place update of the object behind a reference. *)
Definition modify (l : ref) (f : DataFrame -> DataFrame) : M unit :=
  fun h =>
    match nth_error h l with
    | Some d => (inr tt, replace_nth h l (f d))
    | None => (inl ReferenceError, h)
    end.

(** A new object. *)
Definition alloc (d : DataFrame) : M ref :=
  fun h => (inr (length h), h ++ [d]).

(** ** hcp_utils.py *)

Definition score_map : list (string * Z) :=
  [("High", 3); ("Medium", 2); ("Low", 1)].

Section Ranker.

Variable argsort : list Z -> list nat.

(** [rank_hcps(df)]: the first assignment writes into the caller's frame;
    [sort_values] and [reset_index] each return a new frame, and the second
    assignment writes into that one, which is returned. *)
Definition rank_hcps (df : ref) : M ref :=
  d <- deref df ;;
  modify df (fun d' => set_score d'
    (Series_mul (column rx_value d)
                (Series_map score_map (column writing_behavior d)))) ;;;
  d <- deref df ;;
  sorted <- lift (sort_values_score argsort d) ;;
  df1 <- alloc sorted ;;
  d1 <- deref df1 ;;
  df2 <- alloc d1 ;;
  d2 <- deref df2 ;;
  modify df2 (fun d' => set_priority_rank d'
    (map (fun i => i + 1) (RangeIndex d2))) ;;;
  ret df2.

End Ranker.

(** [int(n*0.2)] and [int(n*0.5)] for a row count [n]: the double nearest to
    0.2 lies just above one fifth, so the product truncates to the integer
    quotient for every count a table can have; halving is exact. *)
Definition int_mul_0_2 (n : Z) : Z := n / 5.
Definition int_mul_0_5 (n : Z) : Z := n / 2.

(** [segment_hcps(df)]: writes the ['segment'] column into the frame it is
    given and returns that same frame. *)
Definition segment_hcps (df : ref) : M ref :=
  d <- deref df ;;
  let n := Z.of_nat (len d) in
  let bins := [0; int_mul_0_2 n; int_mul_0_5 n; n] in
  let labels := ["Top 20%"; "Middle 30%"; "Bottom 50%"] in
  pr <- lift (getitem (priority_rank d)) ;;
  seg <- lift (cut pr bins labels true) ;;
  modify df (fun d' => set_segment d' seg) ;;;
  ret df.

(** The table [channel_affinity] builds: one row per ['NPI Id'] with its
    ['channel_affinity']. *)
Definition affinity_table : Type := list (string * string).

(** [channel_affinity(df)]: the loop appends one label per row; the result is
    a table of its own, returned by value as nothing else refers to it. *)
Definition channel_affinity (df : ref) : M affinity_table :=
  d <- deref df ;;
  let affinity :=
    fold_left (fun acc row =>
      if String.eqb (writing_behavior row) "High"
         || existsb (String.eqb (speciality row)) ["Cardiology"; "Oncology"]
      then acc ++ ["In-person"]
      else acc ++ ["Email"]) (records d) [] in
  ret (combine (column npi_id d) affinity).

(** [str(i)] of a Python integer. *)
Definition str (i : Z) : string := NilZero.string_of_int (Z.to_int i).

(** [pd.DataFrame({...})] from five column lists: a [ValueError] unless all
    have one length. *)
Fixpoint zip_records (ids specs : list string) (rxs : list Z)
    (states wbs : list string) : result (list hcp) :=
  match ids, specs, rxs, states, wbs with
  | [], [], [], [], [] => inr []
  | i :: ids', s :: specs', x :: rxs', c :: states', w :: wbs' =>
      rbind (zip_records ids' specs' rxs' states' wbs')
            (fun rs => inr (mk_hcp i s x c w :: rs))
  | _, _, _, _, _ => inl ValueError
  end.

Section Generator.

(** The two process-wide generators the simulator draws from: Python's
    [random] and numpy's [np.random].  Seeding replaces a generator's whole
    state; a draw reads the state and leaves a new one.  The samplers
    themselves are taken as given. *)
Variables py_state np_state : Type.
Variable py_seed : Z -> py_state.
Variable np_seed : Z -> np_state.
(** [random.choices(population, k=k)] *)
Variable py_choices : list string -> nat -> py_state -> list string * py_state.
(** [np.random.lognormal(mean, sigma, size).astype(int)], the two
    parameters as fractions *)
Variable np_lognormal_int :
  Z * Z -> Z * Z -> nat -> np_state -> list Z * np_state.
(** [np.random.choice(a, size=size, p=p)], the probabilities as fractions *)
Variable np_choice :
  list string -> nat -> list (Z * Z) -> np_state -> list string * np_state.

Record rng : Type := mk_rng { py : py_state; np : np_state }.

Definition synthea_simulator (num_patients : nat) (g : rng)
  : result DataFrame * rng :=
  let g := mk_rng (py g) (np_seed 42) in
  let g := mk_rng (py_seed 42) (np g) in
  let npi_ids :=
    map (fun i => str (1000000000 + Z.of_nat i)) (seq 0 num_patients) in
  let (specialties, p1) :=
    py_choices ["Cardiology"; "Dermatology"; "Endocrinology";
                "Family Medicine"; "Gastroenterology"; "Internal Medicine";
                "Neurology"; "Oncology"; "Pediatrics"; "Psychiatry";
                "Surgery"] num_patients (py g) in
  let (state_codes, p2) :=
    py_choices ["CA"; "NY"; "TX"; "FL"; "IL"; "PA"; "OH"; "GA"; "NC"; "MI"]
               num_patients p1 in
  let (rx_values, n1) :=
    np_lognormal_int (9, 1) (7, 10) num_patients (np g) in
  let (writing_behaviors, n2) :=
    np_choice ["High"; "Medium"; "Low"] num_patients
              [(3, 10); (5, 10); (2, 10)] n1 in
  (rbind (zip_records npi_ids specialties rx_values state_codes
                      writing_behaviors)
         (fun rs => inr (base_table rs)),
   mk_rng p2 n2).

Definition generate_hcp_data (num_hcps : nat) (g : rng)
  : result DataFrame * rng :=
  synthea_simulator num_hcps g.

End Generator.

(** ** app.py *)

Section App.

Variable argsort : list Z -> list nat.

(** The pipeline of [app.py] from the table [data] on: rank, segment,
    classify, then show and export [data] itself under "Current HCP Data".
    Returns what is shown there, the ranked and segmented frame, and the
    affinity table. *)
Definition app_pipeline (data : ref)
  : M (DataFrame * DataFrame * affinity_table) :=
  data_ranked <- rank_hcps argsort data ;;
  data_segmented <- segment_hcps data_ranked ;;
  affinity <- channel_affinity data_segmented ;;
  shown <- deref data ;;
  segmented <- deref data_segmented ;;
  ret (shown, segmented, affinity).

End App.

(** ** Two argsorts *)

(** What a value array [a] holds at a position. *)
Definition key (a : list Z) (i : nat) : Z := nth i a 0.

(** The contract of [argsort]: a permutation of the positions along which
    the values ascend. *)
Definition argsort_spec (argsort : list Z -> list nat) : Prop :=
  forall a,
    Permutation (argsort a) (seq 0 (length a)) /\
    StronglySorted Z.le (map (key a) (argsort a)).

(** A stable [argsort] moreover returns the positions of one value in
    increasing order. *)
Definition by_value_then_position (a : list Z) (i j : nat) : Prop :=
  key a i < key a j \/ (key a i = key a j /\ (i < j)%nat).

Definition stable_argsort (argsort : list Z -> list nat) : Prop :=
  forall a, StronglySorted (by_value_then_position a) (argsort a).

(** Insertion of one position into positions already in order: it goes in
    front of the first one that [before] puts it before. *)
Fixpoint insert_by (before : Z -> Z -> bool) (a : list Z) (vi : nat)
    (sorted : list nat) : list nat :=
  match sorted with
  | [] => [vi]
  | k :: rest =>
      if before (key a vi) (key a k) then vi :: k :: rest
      else k :: insert_by before a vi rest
  end.

Definition insertion_by (before : Z -> Z -> bool) (a : list Z) : list nat :=
  fold_left (fun acc i => insert_by before a i acc) (seq 0 (length a)) [].

(** The insertion sort numpy's quicksort runs on a short range, here on the
    whole array: a position goes in front of the
    first one whose value is larger, as numpy's insertion loop (which walks
    down from the right while the value is smaller) leaves it. *)
Definition insertion_argsort (a : list Z) : list nat :=
  insertion_by Z.ltb a.

(** The same sort with a position put in front of the first one whose value
    is larger or equal. *)
Definition front_insertion_argsort (a : list Z) : list nat :=
  insertion_by Z.leb a.

(** numpy's scalar argsort quicksort ([aquicksort] in [npysort/quicksort]),
    the one that runs where numpy has no vectorised sort for the machine (a
    build with AVX-512 sorts otherwise, and orders ties otherwise).  It is an
    introsort on the array of positions [tosort]: median-of-three
    partitioning of a range of seventeen positions or more, the larger part
    pushed on a stack, insertion sort on a shorter range, and a heapsort of
    the range once the partitioning has gone deeper than twice the logarithm
    of the length.  Pointers are offsets into [tosort].  Every loop carries
    fuel, one unit more than the array has positions, and the result is
    [None] only when a loop uses it up. *)
Module Aquicksort.

(** A range is partitioned while [pr - pl] exceeds this, that is while it
    holds seventeen positions or more. *)
Definition SMALL_QUICKSORT : Z := 15.

Record frame : Type := mk_frame {
  tosort : list nat;
  pl : Z;
  pr : Z;
  stack : list (Z * Z);
  psdepth : list Z;
  cdepth : Z
}.

Section Sort.

Variable v : list Z.

(** [*p] and [v[*p]] *)
Definition star (t : list nat) (p : Z) : nat := nth (Z.to_nat p) t 0%nat.
Definition val (t : list nat) (p : Z) : Z := key v (star t p).

Fixpoint put_nat (t : list nat) (n : nat) (x : nat) : list nat :=
  match t, n with
  | [], _ => []
  | _ :: t', O => x :: t'
  | y :: t', S n' => y :: put_nat t' n' x
  end.

(** [*p = x] *)
Definition put (t : list nat) (p : Z) (x : nat) : list nat :=
  put_nat t (Z.to_nat p) x.

Definition INTP_SWAP (t : list nat) (p q : Z) : list nat :=
  put (put t p (star t q)) q (star t p).

(** [do { ++pi; } while (less(v[*pi], vp));] *)
Fixpoint scan_up (fuel : nat) (t : list nat) (vp : Z) (pi : Z) : option Z :=
  match fuel with
  | O => None
  | S fuel' =>
      let pi := pi + 1 in
      if val t pi <? vp then scan_up fuel' t vp pi else Some pi
  end.

(** [do { --pj; } while (less(vp, v[*pj]));] *)
Fixpoint scan_down (fuel : nat) (t : list nat) (vp : Z) (pj : Z) : option Z :=
  match fuel with
  | O => None
  | S fuel' =>
      let pj := pj - 1 in
      if vp <? val t pj then scan_down fuel' t vp pj else Some pj
  end.

(** The [for (;;)] loop of the partition: returns the array and [pi]. *)
Fixpoint partition_loop (fuel : nat) (t : list nat) (vp : Z) (pi pj : Z)
  : option (list nat * Z) :=
  match fuel with
  | O => None
  | S fuel' =>
      match scan_up (S (length t)) t vp pi with
      | None => None
      | Some pi =>
          match scan_down (S (length t)) t vp pj with
          | None => None
          | Some pj =>
              if pi >=? pj then Some (t, pi)
              else partition_loop fuel' (INTP_SWAP t pi pj) vp pi pj
          end
      end
  end.

(** [while ((pr - pl) > SMALL_QUICKSORT) { ... }] *)
Fixpoint partition_while (fuel : nat) (s : frame) : option frame :=
  match fuel with
  | O => None
  | S fuel' =>
      let (t, pl, pr, stack, psdepth, cdepth) := s in
      if pr - pl >? SMALL_QUICKSORT then
        let pm := pl + Z.shiftr (pr - pl) 1 in
        let t := if val t pm <? val t pl then INTP_SWAP t pm pl else t in
        let t := if val t pr <? val t pm then INTP_SWAP t pr pm else t in
        let t := if val t pm <? val t pl then INTP_SWAP t pm pl else t in
        let vp := val t pm in
        let pi := pl in
        let pj := pr - 1 in
        let t := INTP_SWAP t pm pj in
        match partition_loop (S (length t)) t vp pi pj with
        | None => None
        | Some (t, pi) =>
            let pk := pr - 1 in
            let t := INTP_SWAP t pi pk in
            let cdepth := cdepth - 1 in
            if pi - pl <? pr - pi then
              partition_while fuel'
                (mk_frame t pl (pi - 1) ((pi + 1, pr) :: stack)
                          (cdepth :: psdepth) cdepth)
            else
              partition_while fuel'
                (mk_frame t (pi + 1) pr ((pl, pi - 1) :: stack)
                          (cdepth :: psdepth) cdepth)
        end
      else Some s
  end.

(** [while (pj > pl && less(vp, v[*pk])) { *pj-- = *pk--; }] *)
Fixpoint shift_up (fuel : nat) (t : list nat) (pl : Z) (vp : Z) (pj : Z)
  : option (list nat * Z) :=
  match fuel with
  | O => None
  | S fuel' =>
      let pk := pj - 1 in
      if (pj >? pl) && (vp <? val t pk)
      then shift_up fuel' (put t pj (star t pk)) pl vp (pj - 1)
      else Some (t, pj)
  end.

(** [for (pi = pl + 1; pi <= pr; ++pi) { ... }] *)
Fixpoint insertion_sort (fuel : nat) (t : list nat) (pl pr : Z) (pi : Z)
  : option (list nat) :=
  match fuel with
  | O => None
  | S fuel' =>
      if pi <=? pr then
        let vi := star t pi in
        let vp := key v vi in
        match shift_up (S (length t)) t pl vp pi with
        | None => None
        | Some (t, pj) => insertion_sort fuel' (put t pj vi) pl pr (pi + 1)
        end
      else Some t
  end.

(** [aheapsort(vv, pl, n)] works on [a = pl - 1], so that the heap starts at
    [a[1]]: [a[k]] is the cell at offset [pl + k - 1]. *)
Definition heap_get (t : list nat) (pl k : Z) : nat := star t (pl + k - 1).
Definition heap_put (t : list nat) (pl k : Z) (x : nat) : list nat :=
  put t (pl + k - 1) x.

(** [for (...; j <= n;) { if (j < n && less(v[a[j]], v[a[j+1]])) j += 1;
    if (less(v[tmp], v[a[j]])) { a[i] = a[j]; i = j; j += j; } else break; }]:
    returns the array and [i]. *)
Fixpoint sift_down (fuel : nat) (t : list nat) (pl n : Z) (tmp : nat)
    (i j : Z) : option (list nat * Z) :=
  match fuel with
  | O => None
  | S fuel' =>
      if j <=? n then
        let j :=
          if (j <? n)
             && (key v (heap_get t pl j) <? key v (heap_get t pl (j + 1)))
          then j + 1 else j in
        if key v tmp <? key v (heap_get t pl j)
        then sift_down fuel' (heap_put t pl i (heap_get t pl j)) pl n tmp
                       j (j + j)
        else Some (t, i)
      else Some (t, i)
  end.

(** [for (l = n >> 1; l > 0; --l) { tmp = a[l]; ...; a[i] = tmp; }] *)
Fixpoint build_heap (fuel : nat) (t : list nat) (pl n l : Z)
  : option (list nat) :=
  match fuel with
  | O => None
  | S fuel' =>
      if l >? 0 then
        let tmp := heap_get t pl l in
        match sift_down (S (length t)) t pl n tmp l (Z.shiftl l 1) with
        | None => None
        | Some (t, i) => build_heap fuel' (heap_put t pl i tmp) pl n (l - 1)
        end
      else Some t
  end.

(** [for (; n > 1;) { tmp = a[n]; a[n] = a[1]; n -= 1; ...; a[i] = tmp; }] *)
Fixpoint pop_heap (fuel : nat) (t : list nat) (pl n : Z)
  : option (list nat) :=
  match fuel with
  | O => None
  | S fuel' =>
      if n >? 1 then
        let tmp := heap_get t pl n in
        let t := heap_put t pl n (heap_get t pl 1) in
        let n := n - 1 in
        match sift_down (S (length t)) t pl n tmp 1 2 with
        | None => None
        | Some (t, i) => pop_heap fuel' (heap_put t pl i tmp) pl n
        end
      else Some t
  end.

Definition aheapsort (t : list nat) (pl n : Z) : option (list nat) :=
  match build_heap (S (length t)) t pl n (Z.shiftr n 1) with
  | None => None
  | Some t => pop_heap (S (length t)) t pl n
  end.

(** One turn of the outer [while (1)] up to [stack_pop]: the heapsort of the
    range when the depth is used up, the partitions and the insertion sort
    otherwise.  Returns the array and the stacks. *)
Definition sort_range (s : frame) : option (list nat * frame) :=
  if cdepth s <? 0 then
    match aheapsort (tosort s) (pl s) (pr s - pl s + 1) with
    | None => None
    | Some t => Some (t, s)
    end
  else
    match partition_while (S (length (tosort s))) s with
    | None => None
    | Some s =>
        match insertion_sort (S (length (tosort s))) (tosort s)
                             (pl s) (pr s) (pl s + 1) with
        | None => None
        | Some t => Some (t, s)
        end
    end.

(** The outer [while (1)]: after a range is sorted the next one is popped,
    until the stack is empty. *)
Fixpoint outer (fuel : nat) (s : frame) : option (list nat) :=
  match fuel with
  | O => None
  | S fuel' =>
      match sort_range s with
      | None => None
      | Some (t, s) =>
          match stack s, psdepth s with
          | [], _ => Some t
          | (l, r) :: stack', d :: psdepth' =>
              outer fuel' (mk_frame t l r stack' psdepth' d)
          | _ :: _, [] => None
          end
      end
  end.

(** [argsort]: the positions start out as [0 .. num-1]. *)
Definition aquicksort : option (list nat) :=
  let num := Z.of_nat (length v) in
  outer (S (length v))
        (mk_frame (seq 0 (length v)) 0 (num - 1) [] [] (Z.log2 num * 2)).

End Sort.

End Aquicksort.

(** The scalar quicksort as an [argsort].  The C loops all end; the model's
    loops have fuel for a whole pass over the array each, and [[]] stands
    for a run in which one of them would use that up. *)
Definition quicksort_argsort (a : list Z) : list nat :=
  match Aquicksort.aquicksort a with
  | Some t => t
  | None => []
  end.

(** ** What the specification's sentences speak of *)

(** A table whose rx values an int64 column can hold. *)
Definition int64_column (rows : list hcp) : Prop :=
  Forall (fun r => int64 (rx_value r)) rows.

(** Whether some behaviour of the table has no weight: the weights of the
    table are then a float64 column, an int64 column otherwise. *)
Definition float64_weights (rows : list hcp) : bool :=
  existsb (fun r => isna (dict_get score_map (writing_behavior r))) rows.

(** The score cell of a record in a table whose weights are float64 or
    int64: the product with the weight of its writing behaviour in that
    arithmetic, NaN when the behaviour has no weight. *)
Definition score_of (float64 : bool) (r : hcp) : option Z :=
  option_map ((if float64 then float64_mul else int64_mul) (rx_value r))
             (dict_get score_map (writing_behavior r)).

(** The score column of a table. *)
Definition scores_of (rows : list hcp) : list (option Z) :=
  map (score_of (float64_weights rows)) rows.

(** Where the product of the column is the product of the integers: within
    the int64 range in an int64 column, below [2^53] in magnitude in a
    float64 column. *)
Definition exact_product (float64 : bool) (x : Z) : Prop :=
  if float64 then Z.abs x < 2 ^ 53 else int64 x.

(** The cells of a column that are not NaN ([dropna]). *)
Fixpoint dropna (items : list (option Z)) : list Z :=
  match items with
  | [] => []
  | Some v :: items' => v :: dropna items'
  | None :: items' => dropna items'
  end.

(** Descending order on score cells with NaN after every number. *)
Definition score_ge (a b : option Z) : Prop :=
  match a, b with
  | Some x, Some y => y <= x
  | _, None => True
  | None, Some _ => False
  end.

(** The order of the positions of a score column after a stable descending
    sort: larger score first, NaN last, and the earlier position first among
    equals. *)
Definition tie_order (items : list (option Z)) (x y : nat) : Prop :=
  match nth x items None, nth y items None with
  | Some u, Some v => v < u \/ (u = v /\ (x < y)%nat)
  | None, None => (x < y)%nat
  | Some _, None => True
  | None, Some _ => False
  end.

(** The frames [rank_hcps] leaves behind for a table [rows] whose rows come
    out in the order [out]: the caller's, the sorted one, the returned one. *)
Definition scored (rows : list hcp) : DataFrame :=
  set_score (base_table rows) (scores_of rows).

Definition ranked (out : list hcp) : DataFrame :=
  set_priority_rank (scored out)
    (map (fun i => Z.of_nat i + 1) (seq 0 (length out))).

(** The segment of a rank in a table of [n] rows, as the specification words
    it: edges [0, floor(0.2 n), floor(0.5 n), n], each interval closed on the
    right, the lowest edge included. *)
Definition segment_label (n r : Z) : option string :=
  if (0 <=? r) && (r <=? n / 5) then Some "Top 20%"
  else if (n / 5 <? r) && (r <=? n / 2) then Some "Middle 30%"
  else if (n / 2 <? r) && (r <=? n) then Some "Bottom 50%"
  else None.

(** The label of a record, as the specification words it. *)
Definition affinity_label (specialty behavior : string) : string :=
  if String.eqb behavior "High" then "In-person"
  else if String.eqb specialty "Cardiology" then "In-person"
  else if String.eqb specialty "Oncology" then "In-person"
  else "Email".

(** The integers [1 .. n]. *)
Definition one_to (n : nat) : list Z := map Z.of_nat (seq 1 n).

(** The weights of the specification. *)
Inductive weight : string -> Z -> Prop :=
| weight_High : weight "High" 3
| weight_Medium : weight "Medium" 2
| weight_Low : weight "Low" 1.

(** A table with a tie for the first place and one behaviour without a
    weight. *)
Definition sample : list hcp :=
  [ mk_hcp "1000000000" "Dermatology" 500 "CA" "Low";
    mk_hcp "1000000001" "Family Medicine" 1000 "NY" "High";
    mk_hcp "1000000002" "Oncology" 800 "TX" "Unknown";
    mk_hcp "1000000003" "Cardiology" 700 "FL" "Medium";
    mk_hcp "1000000004" "Neurology" 1500 "IL" "Medium";
    mk_hcp "1000000005" "Pediatrics" 3000 "PA" "Low" ].

(** What a stable ranking would be: two rows with one score cell that stand
    in some order in the input stand in that order in the output. *)
Definition stable_ranking (input output : list hcp) : Prop :=
  forall i j a b i' j',
    (i < j)%nat ->
    nth_error input i = Some a -> nth_error input j = Some b ->
    score_of (float64_weights input) a = score_of (float64_weights input) b ->
    nth_error output i' = Some a -> nth_error output j' = Some b ->
    (i' < j')%nat.

(** Eighteen records with one score, told apart by their ids. *)
Definition tied : list hcp :=
  map (fun i => mk_hcp (str (1000000000 + Z.of_nat i)) "Pediatrics" 100
                       "CA" "Low")
      (seq 0 18).

(** Ten records for scenarios A and B of the specification: the second has
    the highest score, the ninth the lowest. *)
Definition scenario : list hcp :=
  [ mk_hcp "1000000000" "Neurology" 900 "CA" "Medium";
    mk_hcp "1000000001" "Family Medicine" 1000 "NY" "High";
    mk_hcp "1000000002" "Oncology" 800 "TX" "Medium";
    mk_hcp "1000000003" "Cardiology" 700 "FL" "Medium";
    mk_hcp "1000000004" "Surgery" 1200 "IL" "Medium";
    mk_hcp "1000000005" "Pediatrics" 2000 "PA" "Low";
    mk_hcp "1000000006" "Psychiatry" 600 "OH" "High";
    mk_hcp "1000000007" "Endocrinology" 650 "GA" "Medium";
    mk_hcp "1000000008" "Dermatology" 500 "NC" "Low";
    mk_hcp "1000000009" "Gastroenterology" 750 "MI" "Low" ].

(** Forty values with repeats, in no order. *)
Definition shuffled : list Z :=
  map (fun i => (Z.of_nat i * 37 + 11) mod 23) (seq 0 40).

(** A filler for positions past the end of a list of records. *)
Definition no_hcp : hcp := mk_hcp "" "" 0 "" "".

(** ** The rest of app.py *)

(** A frame as pandas keeps it: a derived column, where there is one, has a
    cell for every row. *)
Definition wf_frame (d : DataFrame) : Prop :=
  (forall s, score d = Some s -> length s = len d) /\
  (forall r, priority_rank d = Some r -> length r = len d) /\
  (forall s, segment d = Some s -> length s = len d).

(** The categories of the column [cut] makes, in their order. *)
Definition segment_categories : list string :=
  ["Top 20%"; "Middle 30%"; "Bottom 50%"].

Definition is_label (lab : string) (c : option string) : bool :=
  match c with
  | Some x => String.eqb x lab
  | None => false
  end.

(** [data_segmented['segment'].value_counts().sort_index()]: the column is
    categorical, so there is one count per category, also when it is 0, and
    sorting by index puts the categories in their order; NaN cells are not
    counted. *)
Definition seg_counts (d : DataFrame) : result (list (string * nat)) :=
  rbind (getitem (segment d)) (fun s =>
  inr (map (fun lab => (lab, length (filter (is_label lab) s)))
           segment_categories)).

(** [Series.unique()]: the distinct values, each where it first appears. *)
Fixpoint unique_str (l : list string) : list string :=
  match l with
  | [] => []
  | x :: l' => x :: filter (fun y => negb (String.eqb y x)) (unique_str l')
  end.

(** [Series.isin(values)] and [&] on two boolean columns. *)
Definition isin (col values : list string) : list bool :=
  map (fun x => existsb (String.eqb x) values) col.

Definition mask_and (a b : list bool) : list bool :=
  map (fun p => fst p && snd p) (combine a b).

(** [df[mask]] with a boolean column: a new frame with the rows where the
    mask holds, every column cut alike. *)
Definition select {A} (mask : list bool) (l : list A) : list A :=
  map snd (filter fst (combine mask l)).

Definition getitem_mask (d : DataFrame) (mask : list bool) : DataFrame :=
  mk_df (select mask (records d))
        (option_map (select mask) (score d))
        (option_map (select mask) (priority_rank d))
        (option_map (select mask) (segment d)).

(** A Python string is true when it is not empty. *)
Definition truthy (s : string) : bool :=
  match s with
  | EmptyString => false
  | String _ _ => true
  end.

(** How pandas holds a column of text: as Python strings (dtype object), or,
    for a sheet whose cells of the column are all whole numbers, as int64.
    A record keeps the text of the cell in both cases; the dtype of the
    ['NPI Id'] column goes with the frame as an argument where it matters,
    which is in the [.str] accessor. *)
Inductive text_dtype : Type :=
| object_dtype
| int64_dtype.

Section Filters.

(** [re.compile(pat, flags=re.IGNORECASE)] and [.search] of the result:
    [None] when the text is not a regular expression, which raises
    [re.error]; the test of one string otherwise.  Taken as given. *)
Variable re_compile : string -> option (string -> bool).

(** [Series.str.contains(pat, case=False, na=False)], with [regex=True] as
    it is by default: the accessor raises [AttributeError] on a column that
    does not hold strings, the pattern is compiled whatever the number of
    rows, and every cell is searched. *)
Definition str_contains (dtype : text_dtype) (col : list string)
    (pat : string) : result (list bool) :=
  match dtype with
  | int64_dtype => inl AttributeError
  | object_dtype =>
      match re_compile pat with
      | None => inl PatternError
      | Some search => inr (map search col)
      end
  end.

(** The test a search text makes, none matching when it is no pattern. *)
Definition search_of (pat : string) : string -> bool :=
  match re_compile pat with
  | Some search => search
  | None => fun _ => false
  end.

(** Whether a search box can be used on a column: it is empty, or the
    column holds strings and the text is a regular expression. *)
Definition searchable (dtype : text_dtype) (pat : string) : bool :=
  negb (truthy pat)
  || match dtype, re_compile pat with
     | object_dtype, Some _ => true
     | _, _ => false
     end.

(** Whether a record passes the sidebar: state and speciality among the
    selected ones, and each search box empty or matching. *)
Definition passes (states specialties : list string)
    (search_npi search_specialty : string) (r : hcp) : bool :=
  existsb (String.eqb (state_code r)) states
  && existsb (String.eqb (speciality r)) specialties
  && (negb (truthy search_npi) || search_of search_npi (npi_id r))
  && (negb (truthy search_specialty)
      || search_of search_specialty (speciality r)).

(** The sidebar of [app.py]: the rows of [data_segmented] whose state and
    speciality are among the selected ones, narrowed by the two search
    boxes when they are filled in.  [npi_dtype] is the dtype of the
    ['NPI Id'] column; ['speciality'] holds strings. *)
Definition filtered_data (npi_dtype : text_dtype) (data_segmented : DataFrame)
    (states specialties : list string) (search_npi search_specialty : string)
  : result DataFrame :=
  let filtered :=
    getitem_mask data_segmented
      (mask_and (isin (column state_code data_segmented) states)
                (isin (column speciality data_segmented) specialties)) in
  rbind
    (if truthy search_npi
     then rbind (str_contains npi_dtype (column npi_id filtered) search_npi)
                (fun mask => inr (getitem_mask filtered mask))
     else inr filtered) (fun filtered =>
  if truthy search_specialty
  then rbind (str_contains object_dtype (column speciality filtered)
                           search_specialty)
             (fun mask => inr (getitem_mask filtered mask))
  else inr filtered).

End Filters.

(** A stand-in for [re_compile] on texts without special characters, where
    a pattern is found when it is a piece of the string, the case of the
    letters A to Z apart; a text with an open bracket is no pattern. *)
Definition lower (c : ascii) : ascii :=
  let n := nat_of_ascii c in
  if (65 <=? n)%nat && (n <=? 90)%nat then ascii_of_nat (n + 32) else c.

Fixpoint lowercase (s : string) : string :=
  match s with
  | EmptyString => EmptyString
  | String c s' => String (lower c) (lowercase s')
  end.

Fixpoint has_substring (pat s : string) : bool :=
  String.prefix pat s
  || match s with
     | EmptyString => false
     | String _ s' => has_substring pat s'
     end.

Fixpoint has_bracket (s : string) : bool :=
  match s with
  | EmptyString => false
  | String c s' => Ascii.eqb c "("%char || has_bracket s'
  end.

Definition plain_compile (pat : string) : option (string -> bool) :=
  if has_bracket pat then None
  else Some (fun s => has_substring (lowercase pat) (lowercase s)).

Section AppMain.

Variable argsort : list Z -> list nat.
Variables py_state np_state : Type.
Variable py_seed : Z -> py_state.
Variable np_seed : Z -> np_state.
Variable py_choices : list string -> nat -> py_state -> list string * py_state.
Variable np_lognormal_int :
  Z * Z -> Z * Z -> nat -> np_state -> list Z * np_state.
Variable np_choice :
  list string -> nat -> list (Z * Z) -> np_state -> list string * np_state.

(** [app.py] from the upload on: the table read from the uploaded file when
    there is one ([uploaded_file] is what [pd.read_excel] made of it), the
    generator's 200 records otherwise; then the pipeline on that table. *)
Definition app_main (uploaded_file : option DataFrame)
    (g : rng py_state np_state) (h : heap)
  : result (DataFrame * DataFrame * affinity_table)
    * rng py_state np_state * heap :=
  let (r, g') :=
    match uploaded_file with
    | Some d => (inr d, g)
    | None =>
        generate_hcp_data py_state np_state py_seed np_seed py_choices
                          np_lognormal_int np_choice 200 g
    end in
  match r with
  | inl e => (inl e, g', h)
  | inr d =>
      match (data <- alloc d ;; app_pipeline argsort data) h with
      | (res, h') => (res, g', h')
      end
  end.

End AppMain.

(** Samplers that walk round their population, for running the generator:
    the state is a counter. *)
Definition cycle_choices (population : list string) (k : nat) (s : nat)
  : list string * nat :=
  (map (fun i => nth ((s + i) mod length population) population "")
       (seq 0 k),
   (s + k)%nat).

Definition cycle_lognormal_int (mean sigma : Z * Z) (size : nat) (s : nat)
  : list Z * nat :=
  (map (fun i => 1000 + 37 * Z.of_nat ((s + i) mod 101)) (seq 0 size),
   (s + size)%nat).

Definition cycle_choice (a : list string) (size : nat) (p : list (Z * Z))
    (s : nat) : list string * nat :=
  cycle_choices a size s.

(** The order a descending sort with the NaN cells last leaves the positions
    of a column in, whatever the sort does with equal numbers: the cell does
    not grow, and of two NaN cells the earlier position comes first. *)
Definition cell_order (items : list (option Z)) (x y : nat) : Prop :=
  score_ge (nth x items None) (nth y items None) /\
  (nth x items None = None -> nth y items None = None -> (x < y)%nat).

(** A table of two rows, the first with a product past the range of its
    int64 score column: three times [2^62]. *)
Definition large : list hcp :=
  [ mk_hcp "1000000000" "Cardiology" 4611686018427387904 "CA" "High";
    mk_hcp "1000000001" "Oncology" 1000 "NY" "Low" ].

(** Two rows that differ by one above [2^53], in a table whose score column
    is float64. *)
Definition close : list hcp :=
  [ mk_hcp "1000000000" "Cardiology" 9007199254740993 "CA" "Low";
    mk_hcp "1000000001" "Oncology" 9007199254740992 "NY" "Low";
    mk_hcp "1000000002" "Surgery" 800 "TX" "Unknown" ].

(** ** Lists, positions and the store *)

Lemma take_map {A} (d : A) (l : list A) (ix : list nat) :
  Forall (fun i => (i < length l)%nat) ix ->
  take l ix = inr (map (fun i => nth i l d) ix).
Proof.
  induction 1 as [|i ix Hi _ IH]; simpl; [reflexivity|].
  destruct (nth_error l i) as [x|] eqn:E.
  - rewrite IH. simpl. f_equal. f_equal.
    symmetry. apply nth_error_nth. exact E.
  - apply nth_error_None in E. lia.
Qed.

Lemma map_nth_seq {A} (d : A) (l : list A) :
  map (fun i => nth i l d) (seq 0 (length l)) = l.
Proof.
  apply nth_ext with (d := d) (d' := d).
  - now rewrite length_map, length_seq.
  - intros n Hn. rewrite length_map, length_seq in Hn.
    rewrite nth_indep with (d' := nth 0 l d) by now rewrite length_map, length_seq.
    rewrite (map_nth (fun i => nth i l d) (seq 0 (length l)) 0%nat n).
    now rewrite seq_nth.
Qed.

Lemma Permutation_bound (ix : list nat) (n : nat) :
  Permutation ix (seq 0 n) -> Forall (fun i => (i < n)%nat) ix.
Proof.
  intros P. apply Forall_forall. intros i Hi.
  apply (Permutation_in _ P) in Hi. apply in_seq in Hi. lia.
Qed.

Lemma take_permutation {A} (d : A) (l : list A) (ix : list nat) :
  Permutation ix (seq 0 (length l)) ->
  take l ix = inr (map (fun i => nth i l d) ix) /\
  Permutation (map (fun i => nth i l d) ix) l.
Proof.
  intros P. split.
  - apply take_map. now apply Permutation_bound.
  - eapply Permutation_trans; [apply Permutation_map; exact P|].
    now rewrite map_nth_seq.
Qed.

Lemma nth_map_in {A B} (f : A -> B) (d : A) (d' : B) (l : list A) (i : nat) :
  (i < length l)%nat -> nth i (map f l) d' = f (nth i l d).
Proof.
  intros Hi. rewrite nth_indep with (d' := f d) by now rewrite length_map.
  apply map_nth.
Qed.

Lemma replace_nth_length h l d : length (replace_nth h l d) = length h.
Proof.
  revert l; induction h as [|x h IH]; intros [|l]; simpl; auto.
Qed.

Lemma nth_error_replace_nth_eq h l d d0 :
  nth_error h l = Some d0 -> nth_error (replace_nth h l d) l = Some d.
Proof.
  revert l; induction h as [|x h IH]; intros [|l]; simpl; try discriminate; auto.
Qed.

Lemma nth_error_replace_nth_ne h l l' d :
  l <> l' -> nth_error (replace_nth h l d) l' = nth_error h l'.
Proof.
  revert l l'; induction h as [|x h IH]; intros [|l] [|l'] Hne; simpl; auto.
  congruence.
Qed.

Lemma replace_nth_last h x y :
  replace_nth (h ++ [x]) (length h) y = h ++ [y].
Proof.
  induction h as [|z h IH]; simpl; [reflexivity|]. now rewrite IH.
Qed.

Lemma nth_error_last (h : heap) x : nth_error (h ++ [x]) (length h) = Some x.
Proof.
  rewrite nth_error_app2 by lia. now rewrite Nat.sub_diag.
Qed.

Lemma bind_run {A B} (m : M A) (k : A -> M B) h a h' :
  m h = (inr a, h') -> bind m k h = k a h'.
Proof. unfold bind. now intros ->. Qed.

Lemma bind_raise {A B} (m : M A) (k : A -> M B) h e h' :
  m h = (inl e, h') -> bind m k h = (inl e, h').
Proof. unfold bind. now intros ->. Qed.

Lemma deref_run h l d : nth_error h l = Some d -> deref l h = (inr d, h).
Proof. unfold deref. now intros ->. Qed.

Lemma modify_run h l f d :
  nth_error h l = Some d -> modify l f h = (inr tt, replace_nth h l (f d)).
Proof. unfold modify. now intros ->. Qed.

(** One statement of a computation, run on a reference known to be bound. *)
Ltac run_deref H := erewrite bind_run by (apply deref_run; exact H).
Ltac run_modify H := erewrite bind_run by (apply modify_run; exact H).

(** ** Sorting *)

Lemma StronglySorted_app {A} (R : A -> A -> Prop) (l1 l2 : list A) :
  StronglySorted R l1 -> StronglySorted R l2 ->
  (forall x y, In x l1 -> In y l2 -> R x y) ->
  StronglySorted R (l1 ++ l2).
Proof.
  induction 1 as [|x l1 S1 IH F1]; intros S2 H12; simpl; [exact S2|].
  constructor.
  - apply IH; [exact S2|]. intros; apply H12; simpl; auto.
  - apply Forall_app. split; [exact F1|].
    apply Forall_forall. intros y Hy. apply H12; simpl; auto.
Qed.

Lemma StronglySorted_rev {A} (R : A -> A -> Prop) (l : list A) :
  StronglySorted R l -> StronglySorted (fun x y => R y x) (rev l).
Proof.
  induction 1 as [|x l S1 IH F1]; simpl; [constructor|].
  apply StronglySorted_app; [exact IH|repeat constructor|].
  intros y z Hy [<-|[]]. apply in_rev in Hy.
  rewrite Forall_forall in F1. now apply F1.
Qed.

Section Insertion.

Variable before : Z -> Z -> bool.
Hypothesis before_true : forall x y, before x y = true -> x <= y.
Hypothesis before_false : forall x y, before x y = false -> y <= x.

Lemma insert_by_perm a i l : Permutation (insert_by before a i l) (i :: l).
Proof.
  induction l as [|k l IH]; simpl; [reflexivity|].
  destruct (before (key a i) (key a k)); [reflexivity|].
  rewrite IH. apply perm_swap.
Qed.

Lemma insert_by_sorted a i l :
  StronglySorted Z.le (map (key a) l) ->
  StronglySorted Z.le (map (key a) (insert_by before a i l)).
Proof.
  induction l as [|k l IH]; simpl; intros Hs.
  - repeat constructor.
  - apply StronglySorted_inv in Hs. destruct Hs as [Hs Hk].
    destruct (before (key a i) (key a k)) eqn:E; simpl.
    + apply before_true in E. constructor.
      * constructor; assumption.
      * constructor; [exact E|].
        eapply Forall_impl; [|exact Hk]. simpl. intros; lia.
    + apply before_false in E. constructor; [now apply IH|].
      apply Forall_forall. intros y Hy.
      apply in_map_iff in Hy. destruct Hy as [j [<- Hj]].
      apply (Permutation_in _ (insert_by_perm a i l)) in Hj.
      destruct Hj as [<-|Hj]; [exact E|].
      rewrite Forall_forall in Hk. apply Hk. now apply in_map.
Qed.

Lemma insertion_by_fold a js acc :
  StronglySorted Z.le (map (key a) acc) ->
  Permutation (fold_left (fun acc i => insert_by before a i acc) js acc)
              (js ++ acc) /\
  StronglySorted Z.le
    (map (key a) (fold_left (fun acc i => insert_by before a i acc) js acc)).
Proof.
  revert acc. induction js as [|i js IH]; simpl; intros acc Hs.
  - split; [reflexivity|exact Hs].
  - destruct (IH (insert_by before a i acc)) as [P S];
      [now apply insert_by_sorted|].
    split; [|exact S].
    rewrite P, insert_by_perm. symmetry. apply Permutation_middle.
Qed.

Lemma insertion_by_spec : argsort_spec (insertion_by before).
Proof.
  intros a. unfold insertion_by.
  destruct (@insertion_by_fold a (seq 0 (length a)) [])
    as [P S]; [constructor|].
  split; [|exact S]. now rewrite app_nil_r in P.
Qed.

End Insertion.

Lemma insertion_argsort_spec : argsort_spec insertion_argsort.
Proof.
  apply insertion_by_spec; intros x y H.
  - apply Z.ltb_lt in H. lia.
  - apply Z.ltb_ge in H. lia.
Qed.

Lemma front_insertion_argsort_spec : argsort_spec front_insertion_argsort.
Proof.
  apply insertion_by_spec; intros x y H.
  - apply Z.leb_le in H. lia.
  - apply Z.leb_gt in H. lia.
Qed.

Lemma StronglySorted_nth {A} (R : A -> A -> Prop) (l : list A) i j a b :
  StronglySorted R l -> (i < j)%nat ->
  nth_error l i = Some a -> nth_error l j = Some b -> R a b.
Proof.
  intros S. revert i j. induction S as [|x l S1 IH F1]; intros i j Hij Ha Hb.
  - destruct i; discriminate.
  - destruct j as [|j]; [lia|]. simpl in Hb. destruct i as [|i]; simpl in Ha.
    + inversion Ha; subst. rewrite Forall_forall in F1.
      apply F1. eapply nth_error_In; eauto.
    + apply (IH i j); [lia|assumption|assumption].
Qed.

Lemma StronglySorted_map {A B} (f : A -> B) (R : B -> B -> Prop) (l : list A) :
  StronglySorted (fun x y => R (f x) (f y)) l -> StronglySorted R (map f l).
Proof.
  induction 1 as [|x l S1 IH F1]; simpl; constructor; [exact IH|].
  apply Forall_forall. intros y Hy. apply in_map_iff in Hy.
  destruct Hy as [z [<- Hz]]. rewrite Forall_forall in F1. now apply F1.
Qed.

Lemma StronglySorted_weaken {A} (R R' : A -> A -> Prop) (l : list A) :
  (forall x y, In x l -> In y l -> R x y -> R' x y) ->
  StronglySorted R l -> StronglySorted R' l.
Proof.
  intros HR S1. induction S1 as [|x l S1 IH F1]; constructor.
  - apply IH. intros y z Hy Hz. apply HR; simpl; auto.
  - apply Forall_forall. intros y Hy. rewrite Forall_forall in F1.
    apply HR; simpl; auto.
Qed.

Lemma insert_by_ltb_stable (a : list Z) (vi : nat) (l : list nat) :
  Forall (fun k => (k < vi)%nat) l ->
  StronglySorted (by_value_then_position a) l ->
  StronglySorted (by_value_then_position a) (insert_by Z.ltb a vi l).
Proof.
  intros Hlt Hs. induction Hs as [|k l S1 IH F1]; simpl.
  - repeat constructor.
  - apply Forall_cons_iff in Hlt. destruct Hlt as [Hk Hlt].
    destruct (Z.ltb_spec (key a vi) (key a k)) as [E|E].
    + constructor; [now constructor|].
      constructor; [left; exact E|].
      eapply Forall_impl; [|exact F1]. simpl.
      unfold by_value_then_position. intros y [Hy|[Hy _]]; left; lia.
    + constructor; [now apply IH|].
      apply Forall_forall. intros y Hy.
      apply (Permutation_in _ (insert_by_perm Z.ltb a vi l)) in Hy.
      destruct Hy as [<-|Hy].
      * unfold by_value_then_position. lia.
      * rewrite Forall_forall in F1. now apply F1.
Qed.

Lemma insertion_argsort_fold_stable (a : list Z) (len start : nat)
    (acc : list nat) :
  Forall (fun k => (k < start)%nat) acc ->
  StronglySorted (by_value_then_position a) acc ->
  StronglySorted (by_value_then_position a)
    (fold_left (fun acc i => insert_by Z.ltb a i acc) (seq start len) acc).
Proof.
  revert start acc. induction len as [|len IH]; intros start acc Hlt Hs; simpl.
  - exact Hs.
  - apply IH; [|now apply insert_by_ltb_stable].
    apply Forall_forall. intros y Hy.
    apply (Permutation_in _ (insert_by_perm Z.ltb a start acc)) in Hy.
    destruct Hy as [<-|Hy]; [lia|].
    rewrite Forall_forall in Hlt. apply Hlt in Hy. lia.
Qed.

Lemma insertion_argsort_stable : stable_argsort insertion_argsort.
Proof.
  intros a. unfold insertion_argsort, insertion_by.
  apply insertion_argsort_fold_stable; constructor.
Qed.

(** ** The indexer of a descending sort *)

Lemma non_nan_nan_perm i items :
  Permutation (map fst (non_nan_from i items) ++ nan_idx_from i items)
              (seq i (length items)).
Proof.
  revert i. induction items as [|[v|] items IH]; intros i; simpl.
  - constructor.
  - apply perm_skip, IH.
  - symmetry. apply Permutation_cons_app. symmetry. apply IH.
Qed.

Lemma non_nan_from_In i items j v :
  In (j, v) (non_nan_from i items) ->
  (i <= j)%nat /\ nth_error items (j - i) = Some (Some v).
Proof.
  revert i. induction items as [|[w|] items IH]; intros i; simpl.
  - intros [].
  - intros [E|H].
    + inversion E; subst. rewrite Nat.sub_diag. split; [lia|reflexivity].
    + apply IH in H. destruct H as [Hle H]. split; [lia|].
      replace (j - i)%nat with (S (j - S i)) by lia. exact H.
  - intros H. apply IH in H. destruct H as [Hle H]. split; [lia|].
    replace (j - i)%nat with (S (j - S i)) by lia. exact H.
Qed.

Lemma nan_idx_from_In i items j :
  In j (nan_idx_from i items) ->
  (i <= j)%nat /\ nth_error items (j - i) = Some None.
Proof.
  revert i. induction items as [|[w|] items IH]; intros i; simpl.
  - intros [].
  - intros H. apply IH in H. destruct H as [Hle H]. split; [lia|].
    replace (j - i)%nat with (S (j - S i)) by lia. exact H.
  - intros [E|H].
    + subst. rewrite Nat.sub_diag. split; [lia|reflexivity].
    + apply IH in H. destruct H as [Hle H]. split; [lia|].
      replace (j - i)%nat with (S (j - S i)) by lia. exact H.
Qed.

Lemma non_nan_from_increasing i items :
  StronglySorted lt (map fst (non_nan_from i items)).
Proof.
  revert i. induction items as [|[v|] items IH]; intros i; simpl.
  - constructor.
  - constructor; [apply IH|]. apply Forall_forall. intros y Hy.
    apply in_map_iff in Hy. destruct Hy as [[k w] [<- Hk]].
    apply non_nan_from_In in Hk. simpl. lia.
  - apply IH.
Qed.

Lemma nan_idx_from_increasing i items :
  StronglySorted lt (nan_idx_from i items).
Proof.
  revert i. induction items as [|[v|] items IH]; intros i; simpl.
  - constructor.
  - apply IH.
  - constructor; [apply IH|]. apply Forall_forall. intros y Hy.
    apply nan_idx_from_In in Hy. lia.
Qed.

Lemma non_nan_pairing items j :
  (j < length (non_nan_from 0 items))%nat ->
  nth (nth j (rev (map fst (non_nan_from 0 items))) 0%nat) items None =
  Some (key (rev (map snd (non_nan_from 0 items))) j).
Proof.
  intros Hj. unfold key. rewrite <- !map_rev.
  assert (Hj' : (j < length (rev (non_nan_from 0 items)))%nat)
    by now rewrite length_rev.
  rewrite (nth_map_in fst (0%nat, 0) 0%nat _ j Hj').
  rewrite (nth_map_in snd (0%nat, 0) 0 _ j Hj').
  pose proof (nth_In _ (0%nat, 0) Hj') as Hin.
  apply in_rev in Hin.
  destruct (nth j (rev (non_nan_from 0 items)) (0%nat, 0)) as [k v].
  apply non_nan_from_In in Hin. destruct Hin as [_ Hin].
  rewrite Nat.sub_0_r in Hin. simpl. now apply nth_error_nth.
Qed.

Lemma nargsort_sorted argsort items :
  argsort_spec argsort ->
  exists p vals,
    nargsort argsort items = inr (p ++ nan_idx_from 0 items) /\
    Permutation (p ++ nan_idx_from 0 items) (seq 0 (length items)) /\
    map (fun i => nth i items None) p = map Some vals /\
    StronglySorted (fun x y => y <= x) vals /\
    Forall (fun i => nth i items None = None) (nan_idx_from 0 items) /\
    (stable_argsort argsort ->
     StronglySorted (tie_order items) (p ++ nan_idx_from 0 items)).
Proof.
  intros Hspec.
  set (nn := non_nan_from 0 items).
  set (a := rev (map snd nn)).
  set (I := rev (map fst nn)).
  destruct (Hspec a) as [P S].
  assert (La : length a = length nn)
    by (unfold a; now rewrite length_rev, length_map).
  assert (LI : length I = length nn)
    by (unfold I; now rewrite length_rev, length_map).
  assert (P' : Permutation (argsort a) (seq 0 (length I)))
    by now rewrite LI, <- La.
  destruct (take_permutation 0%nat I _ P') as [T PT].
  exists (rev (map (fun j => nth j I 0%nat) (argsort a))).
  exists (rev (map (key a) (argsort a))).
  assert (Hpair : forall j, In j (argsort a) ->
            nth (nth j I 0%nat) items None = Some (key a j)).
  { intros j Hj. apply (Permutation_in _ P) in Hj. apply in_seq in Hj.
    apply non_nan_pairing. fold nn. lia. }
  assert (Hnan : Forall (fun i => nth i items None = None)
                        (nan_idx_from 0 items)).
  { apply Forall_forall. intros j Hj. apply nan_idx_from_In in Hj.
    destruct Hj as [_ Hj]. rewrite Nat.sub_0_r in Hj.
    now apply nth_error_nth. }
  split; [|split; [|split; [|split; [|split]]]].
  - unfold nargsort. fold nn. fold a. fold I. now rewrite T.
  - rewrite <- (non_nan_nan_perm 0 items). apply Permutation_app_tail.
    rewrite <- Permutation_rev. rewrite PT. unfold I.
    symmetry. apply Permutation_rev.
  - rewrite !map_rev. f_equal. rewrite !map_map.
    apply map_ext_in. intros j Hj.
    apply (Permutation_in _ P) in Hj. apply in_seq in Hj.
    apply non_nan_pairing. fold nn. lia.
  - now apply StronglySorted_rev.
  - exact Hnan.
  - intros Hstable.
    assert (HI : StronglySorted (fun x y => (y < x)%nat) I).
    { unfold I. apply StronglySorted_rev. apply non_nan_from_increasing. }
    apply StronglySorted_app.
    + apply (StronglySorted_rev (fun x y => tie_order items y x)).
      apply StronglySorted_map.
      apply (StronglySorted_weaken (by_value_then_position a));
        [|apply Hstable].
      intros j1 j2 H1 H2 Hlex.
      unfold tie_order. rewrite (Hpair j1 H1), (Hpair j2 H2).
      destruct Hlex as [Hlt|[Heq Hlt]]; [left; exact Hlt|].
      right. split; [now symmetry|].
      apply (Permutation_in _ P') in H2. apply in_seq in H2.
      apply (StronglySorted_nth (fun x y => (y < x)%nat) I j1 j2 _ _ HI Hlt);
        apply nth_error_nth'; lia.
    + apply (StronglySorted_weaken lt); [|apply nan_idx_from_increasing].
      intros x y Hx Hy Hxy. unfold tie_order.
      rewrite Forall_forall in Hnan. now rewrite (Hnan x Hx), (Hnan y Hy).
    + intros x y Hx Hy. apply in_rev in Hx. apply in_map_iff in Hx.
      destruct Hx as [j [<- Hj]]. unfold tie_order.
      rewrite Forall_forall in Hnan. now rewrite (Hpair j Hj), (Hnan y Hy).
Qed.

Lemma score_ge_sorted (vals : list Z) (k : nat) :
  StronglySorted (fun x y => y <= x) vals ->
  StronglySorted score_ge (map Some vals ++ repeat None k).
Proof.
  intros S. apply StronglySorted_app.
  - induction S as [|x l S1 IH F1]; simpl; constructor; [exact IH|].
    apply Forall_forall. intros y Hy. apply in_map_iff in Hy.
    destruct Hy as [z [<- Hz]]. rewrite Forall_forall in F1.
    simpl. now apply F1.
  - induction k as [|k IH]; simpl; constructor; [exact IH|].
    apply Forall_forall. intros y Hy. apply repeat_spec in Hy. now subst.
  - intros x y _ Hy. apply repeat_spec in Hy. subst. now destruct x.
Qed.

(** ** The Ranker *)

(** The two arithmetics are that of the integers where the product fits. *)
Lemma wrap_int64_small (z : Z) : int64 z -> wrap_int64 z = z.
Proof.
  unfold int64, wrap_int64. intros H.
  rewrite Z.mod_small by lia. lia.
Qed.

Lemma to_float64_small (z : Z) : Z.abs z < 2 ^ 53 -> to_float64 z = z.
Proof.
  intros H. unfold to_float64. cbv zeta.
  destruct (Z.ltb_spec (Z.abs z) (2 ^ 53)); [reflexivity|lia].
Qed.

Lemma int64_mul_exact (x w : Z) : int64 (x * w) -> int64_mul x w = x * w.
Proof. apply wrap_int64_small. Qed.

Lemma float64_mul_exact (x w : Z) :
  1 <= w <= 3 -> Z.abs (x * w) < 2 ^ 53 -> float64_mul x w = x * w.
Proof.
  intros Hw H. unfold float64_mul.
  rewrite (to_float64_small x) by nia.
  rewrite (to_float64_small w) by lia.
  now apply to_float64_small.
Qed.

Lemma float64_weights_perm (l l' : list hcp) :
  Permutation l l' -> float64_weights l = float64_weights l'.
Proof.
  unfold float64_weights.
  induction 1 as [|x l l' _ IH|x y l|l l' l'' _ IH1 _ IH2]; cbn [existsb].
  - reflexivity.
  - now rewrite IH.
  - now rewrite !orb_assoc,
      (orb_comm (isna (dict_get score_map (writing_behavior y)))).
  - now rewrite IH1.
Qed.

Lemma scores_of_length (rs : list hcp) : length (scores_of rs) = length rs.
Proof. unfold scores_of. apply length_map. Qed.

Lemma score_column (rs : list hcp) :
  Series_mul (map rx_value rs) (Series_map score_map (map writing_behavior rs))
  = scores_of rs.
Proof.
  unfold Series_mul, Series_map, scores_of, score_of. cbv zeta.
  assert (E : existsb isna (map (dict_get score_map)
                                (map writing_behavior rs)) =
              float64_weights rs).
  { unfold float64_weights.
    induction rs as [|r rs IH]; cbn [existsb map]; [reflexivity|].
    now rewrite IH. }
  rewrite E. clear E. generalize (float64_weights rs). intros fl.
  induction rs as [|r rs IH]; cbn [map combine]; [reflexivity|].
  rewrite IH. reflexivity.
Qed.

(** The cells of the score column at a rearrangement of the positions are
    the score column of the rows so rearranged. *)
Lemma scores_of_take (rs : list hcp) (ix : list nat) :
  Permutation ix (seq 0 (length rs)) ->
  map (fun i => nth i (scores_of rs) None) ix =
  scores_of (map (fun i => nth i rs no_hcp) ix).
Proof.
  intros P.
  pose proof (Permutation_bound _ _ P) as Hb.
  destruct (take_permutation no_hcp rs _ P) as [_ PT].
  unfold scores_of. rewrite (float64_weights_perm _ _ PT).
  rewrite map_map. apply map_ext_in. intros i Hi.
  rewrite Forall_forall in Hb. apply nth_map_in. now apply Hb.
Qed.

Lemma sort_values_scored argsort (rs : list hcp) :
  argsort_spec argsort ->
  exists out,
    sort_values_score argsort (scored rs) = inr (scored out) /\
    Permutation out rs /\
    StronglySorted score_ge (scores_of out) /\
    (stable_argsort argsort -> NoDup rs -> stable_ranking rs out).
Proof.
  intros Hspec.
  destruct (nargsort_sorted argsort (scores_of rs) Hspec)
    as (p & vals & Hn & P & Hv & Hs & Hnan & Hst).
  set (ix := p ++ nan_idx_from 0 (scores_of rs)) in *.
  rewrite scores_of_length in P.
  destruct (take_permutation no_hcp rs _ P) as [T PT].
  assert (Hb : Forall (fun i => (i < length rs)%nat) ix)
    by now apply Permutation_bound.
  pose proof (scores_of_take rs ix P) as Hsc.
  exists (map (fun i => nth i rs no_hcp) ix).
  split; [|split; [|split]].
  - unfold sort_values_score, scored, set_score, base_table. simpl.
    rewrite Hn. simpl. fold ix. rewrite T. simpl.
    rewrite (take_map None (scores_of rs) ix)
      by now rewrite scores_of_length.
    simpl. now rewrite Hsc.
  - exact PT.
  - rewrite <- Hsc. unfold ix. rewrite map_app, Hv.
    replace (map (fun i => nth i (scores_of rs) None)
                 (nan_idx_from 0 (scores_of rs)))
      with (repeat (@None Z) (length (nan_idx_from 0 (scores_of rs)))).
    + now apply score_ge_sorted.
    + clear -Hnan. induction Hnan as [|i l Hi _ IH]; simpl; [reflexivity|].
      now rewrite Hi, IH.
  - intros Hstab Hnd. specialize (Hst Hstab). fold ix in Hst.
    assert (Hat : forall k x r,
              nth_error ix k = Some x -> nth_error rs x = Some r ->
              nth x (scores_of rs) None =
              score_of (float64_weights rs) r).
    { intros k x r Hk Hx. unfold scores_of.
      rewrite (nth_map_in (score_of (float64_weights rs)) no_hcp None rs x)
        by (apply nth_error_Some; rewrite Hx; discriminate).
      f_equal. now apply nth_error_nth. }
    assert (Hpos : forall k r n,
              nth_error (map (fun i => nth i rs no_hcp) ix) k = Some r ->
              nth_error rs n = Some r -> nth_error ix k = Some n).
    { intros k r m Hk Hm. rewrite nth_error_map in Hk.
      destruct (nth_error ix k) as [x|] eqn:Ex; [|discriminate].
      simpl in Hk. inversion Hk as [Hr]. f_equal.
      assert (Hx : (x < length rs)%nat).
      { rewrite Forall_forall in Hb. apply Hb. eapply nth_error_In; eauto. }
      apply (proj1 (NoDup_nth_error rs) Hnd x m Hx).
      rewrite Hm, <- Hr. now apply nth_error_nth'. }
    intros i j a b i' j' Hij Ha Hb' Hs' Ha' Hb''.
    pose proof (Hpos i' a i Ha' Ha) as Hi.
    pose proof (Hpos j' b j Hb'' Hb') as Hj.
    destruct (Nat.lt_trichotomy i' j') as [Hlt|[Heq|Hgt]]; [exact Hlt| |].
    + subst j'. rewrite Hi in Hj. inversion Hj. lia.
    + exfalso.
      pose proof (StronglySorted_nth _ ix j' i' j i Hst Hgt Hj Hi) as Ho.
      unfold tie_order in Ho.
      rewrite (Hat j' j b Hj Hb'), (Hat i' i a Hi Ha), <- Hs' in Ho.
      destruct (score_of (float64_weights rs) a); lia.
Qed.

(** What a call of [rank_hcps] does to the store: the caller's frame gains
    the score column, two frames are added, and the second is returned. *)
Lemma rank_hcps_run argsort (h : heap) (l : ref) (rs : list hcp) :
  argsort_spec argsort ->
  nth_error h l = Some (base_table rs) ->
  exists out,
    rank_hcps argsort l h =
      (inr (S (length h)),
       replace_nth h l (scored rs) ++ [scored out; ranked out]) /\
    Permutation out rs /\
    StronglySorted score_ge (scores_of out) /\
    (stable_argsort argsort -> NoDup rs -> stable_ranking rs out).
Proof.
  intros Hspec Hl.
  destruct (sort_values_scored argsort rs Hspec)
    as (out & Hsort & P & Hdesc & Hties).
  exists out. split; [|repeat split; assumption].
  set (h1 := replace_nth h l (scored rs)).
  assert (H1 : nth_error h1 l = Some (scored rs))
    by exact (nth_error_replace_nth_eq h l _ _ Hl).
  assert (L1 : length h1 = length h) by apply replace_nth_length.
  unfold rank_hcps.
  run_deref Hl.
  run_modify Hl.
  unfold column. simpl records. rewrite score_column.
  fold (scored rs). fold h1.
  run_deref H1.
  erewrite bind_run by (unfold lift; rewrite Hsort; reflexivity).
  erewrite bind_run by reflexivity.
  run_deref (nth_error_last h1 (scored out)).
  erewrite bind_run by reflexivity.
  run_deref (nth_error_last (h1 ++ [scored out]) (scored out)).
  run_modify (nth_error_last (h1 ++ [scored out]) (scored out)).
  unfold ret. rewrite replace_nth_last, length_app, L1, <- app_assoc.
  simpl. replace (length h + 1)%nat with (S (length h)) by lia.
  unfold ranked, RangeIndex, len. simpl records.
  now rewrite map_map.
Qed.

(** ** The Segmenter *)

Lemma bins_strict (n : Z) : 5 <= n -> 0 < n / 5 /\ n / 5 < n / 2 /\ n / 2 < n.
Proof.
  intros Hn.
  pose proof (Z.div_mod n 5 ltac:(lia)).
  pose proof (Z.mod_pos_bound n 5 ltac:(lia)).
  pose proof (Z.div_mod n 2 ltac:(lia)).
  pose proof (Z.mod_pos_bound n 2 ltac:(lia)).
  lia.
Qed.

(** With fewer than five rows the first two edges are both 0 and [cut]
    refuses them. *)
Lemma cut_small (x : list Z) (labels : list string) (n : Z) :
  0 <= n < 5 ->
  cut x [0; int_mul_0_2 n; int_mul_0_5 n; n] labels true = inl ValueError.
Proof.
  intros Hn. unfold int_mul_0_2, int_mul_0_5.
  assert (E : n = 0 \/ n = 1 \/ n = 2 \/ n = 3 \/ n = 4) by lia.
  destruct E as [->|[->|[->|[->| ->]]]]; reflexivity.
Qed.

(** From five rows on the edges are distinct and every value gets the label
    of its interval. *)
Lemma cut_segments (x : list Z) (n : Z) :
  5 <= n ->
  cut x [0; int_mul_0_2 n; int_mul_0_5 n; n]
      ["Top 20%"; "Middle 30%"; "Bottom 50%"] true
  = inr (map (segment_label n) x).
Proof.
  intros Hn. destruct (bins_strict n Hn) as (Ha & Hab & Hb).
  unfold int_mul_0_2, int_mul_0_5, segment_label.
  set (a := n / 5) in *. set (b := n / 2) in *.
  unfold cut.
  assert (Hm : is_monotonic_increasing [0; a; b; n] = true).
  { simpl. rewrite !andb_true_iff, !Z.leb_le. lia. }
  assert (Hu : unique [0; a; b; n] = [0; a; b; n]).
  { simpl.
    replace (n =? b) with false by (symmetry; apply Z.eqb_neq; lia).
    simpl.
    replace (b =? a) with false by (symmetry; apply Z.eqb_neq; lia).
    replace (n =? a) with false by (symmetry; apply Z.eqb_neq; lia).
    simpl.
    replace (a =? 0) with false by (symmetry; apply Z.eqb_neq; lia).
    replace (b =? 0) with false by (symmetry; apply Z.eqb_neq; lia).
    replace (n =? 0) with false by (symmetry; apply Z.eqb_neq; lia).
    reflexivity. }
  rewrite Hm, Hu. simpl negb. cbn iota. simpl length.
  rewrite Nat.ltb_irrefl. simpl andb. cbn iota. simpl.
  f_equal. apply map_ext. intros v.
  unfold searchsorted_left. simpl.
  destruct (Z.eqb_spec v 0) as [->|Hv0].
  - simpl. replace (0 <=? a) with true by (symmetry; apply Z.leb_le; lia).
    reflexivity.
  - destruct (Z.ltb_spec 0 v), (Z.ltb_spec a v), (Z.ltb_spec b v),
      (Z.ltb_spec n v), (Z.leb_spec 0 v), (Z.leb_spec v a),
      (Z.leb_spec v b), (Z.leb_spec v n);
      try lia; reflexivity.
Qed.

Lemma segment_hcps_small (h : heap) (l : ref) (d : DataFrame) (pr : list Z) :
  nth_error h l = Some d ->
  priority_rank d = Some pr ->
  (len d < 5)%nat ->
  segment_hcps l h = (inl ValueError, h).
Proof.
  intros Hl Hpr Hn. unfold segment_hcps.
  run_deref Hl.
  erewrite bind_run by (unfold lift; rewrite Hpr; reflexivity).
  erewrite bind_raise; [reflexivity|].
  unfold lift. rewrite cut_small; [reflexivity|lia].
Qed.

Lemma segment_hcps_run (h : heap) (l : ref) (d : DataFrame) (pr : list Z) :
  nth_error h l = Some d ->
  priority_rank d = Some pr ->
  (5 <= len d)%nat ->
  segment_hcps l h =
    (inr l,
     replace_nth h l
       (set_segment d (map (segment_label (Z.of_nat (len d))) pr))).
Proof.
  intros Hl Hpr Hn. unfold segment_hcps.
  run_deref Hl.
  erewrite bind_run by (unfold lift; rewrite Hpr; reflexivity).
  erewrite bind_run by (unfold lift; rewrite cut_segments by lia; reflexivity).
  run_modify Hl. reflexivity.
Qed.

(** ** The Channel Classifier *)

Lemma affinity_loop (rs : list hcp) (acc : list string) :
  fold_left (fun acc row =>
      if String.eqb (writing_behavior row) "High"
         || existsb (String.eqb (speciality row)) ["Cardiology"; "Oncology"]
      then acc ++ ["In-person"]
      else acc ++ ["Email"]) rs acc
  = acc ++ map (fun r => affinity_label (speciality r) (writing_behavior r)) rs.
Proof.
  revert acc. induction rs as [|r rs IH]; intros acc; simpl.
  - now rewrite app_nil_r.
  - rewrite IH. unfold affinity_label at 2.
    destruct (String.eqb (writing_behavior r) "High"); simpl.
    + now rewrite <- app_assoc.
    + destruct (String.eqb (speciality r) "Cardiology"); simpl.
      * now rewrite <- app_assoc.
      * destruct (String.eqb (speciality r) "Oncology"); simpl;
          now rewrite <- app_assoc.
Qed.

Lemma channel_affinity_run (h : heap) (l : ref) (d : DataFrame) :
  nth_error h l = Some d ->
  channel_affinity l h =
    (inr (map (fun r => (npi_id r,
                         affinity_label (speciality r) (writing_behavior r)))
              (records d)), h).
Proof.
  intros Hl. unfold channel_affinity. run_deref Hl.
  unfold ret, column. rewrite affinity_loop. simpl.
  f_equal. f_equal.
  induction (records d) as [|r rs IH]; simpl; [reflexivity|]. now rewrite IH.
Qed.

(** ** Claims on the Ranker *)

Lemma ranks_one_to (n : nat) :
  map (fun i => Z.of_nat i + 1) (seq 0 n) = one_to n.
Proof.
  unfold one_to. rewrite <- seq_shift, map_map.
  apply map_ext. intros i. lia.
Qed.

Lemma one_to_nth (n k : nat) :
  (k < n)%nat -> nth_error (one_to n) k = Some (Z.of_nat k + 1).
Proof.
  intros Hk. unfold one_to.
  rewrite nth_error_map, nth_error_seq.
  destruct (Nat.ltb_spec k n); [|lia]. simpl. f_equal. lia.
Qed.

Lemma weight_get (b : string) (w : Z) :
  weight b w -> dict_get score_map b = Some w /\ 1 <= w <= 3.
Proof. intros W. inversion W; split; (reflexivity || lia). Qed.

Lemma score_of_weight (fl : bool) (r : hcp) (w : Z) :
  weight (writing_behavior r) w ->
  score_of fl r =
  Some ((if fl then float64_mul else int64_mul) (rx_value r) w).
Proof.
  intros W. unfold score_of.
  destruct (weight_get _ _ W) as [E _]. now rewrite E.
Qed.

Lemma score_of_exact (fl : bool) (r : hcp) (w : Z) :
  weight (writing_behavior r) w ->
  exact_product fl (rx_value r * w) ->
  score_of fl r = Some (rx_value r * w).
Proof.
  intros W H. rewrite (score_of_weight fl r w W). f_equal.
  destruct (weight_get _ _ W) as [_ Hw].
  destruct fl; simpl in H.
  - now apply float64_mul_exact.
  - now apply int64_mul_exact.
Qed.

Lemma score_of_nan (fl : bool) (r : hcp) :
  score_of fl r = None <->
  writing_behavior r <> "High" /\ writing_behavior r <> "Medium" /\
  writing_behavior r <> "Low".
Proof.
  unfold score_of, score_map, dict_get.
  destruct (String.eqb_spec "High" (writing_behavior r)) as [E|N1].
  { split; [discriminate|]. intros (H & _). congruence. }
  destruct (String.eqb_spec "Medium" (writing_behavior r)) as [E|N2].
  { split; [discriminate|]. intros (_ & H & _). congruence. }
  destruct (String.eqb_spec "Low" (writing_behavior r)) as [E|N3].
  { split; [discriminate|]. intros (_ & _ & H). congruence. }
  split; [|reflexivity]. intros _. repeat split; congruence.
Qed.

(** The frame [rank_hcps] returns and the caller's frame, in the store the
    call leaves. *)
Lemma rank_hcps_post argsort (h : heap) (l : ref) (rs : list hcp) :
  argsort_spec argsort ->
  nth_error h l = Some (base_table rs) ->
  exists out h',
    rank_hcps argsort l h = (inr (S (length h)), h') /\
    nth_error h' (S (length h)) = Some (ranked out) /\
    nth_error h' l = Some (scored rs) /\
    Permutation out rs /\
    StronglySorted score_ge (scores_of out) /\
    (stable_argsort argsort -> NoDup rs -> stable_ranking rs out).
Proof.
  intros Hspec Hl.
  destruct (rank_hcps_run argsort h l rs Hspec Hl)
    as (out & Hrun & P & Hdesc & Hties).
  assert (Hlt : (l < length h)%nat)
    by (apply nth_error_Some; rewrite Hl; discriminate).
  exists out. eexists. split; [exact Hrun|].
  split; [|split; [|split; [|split]]].
  - rewrite nth_error_app2 by (rewrite replace_nth_length; lia).
    rewrite replace_nth_length.
    replace (S (length h) - length h)%nat with 1%nat by lia. reflexivity.
  - rewrite nth_error_app1 by (rewrite replace_nth_length; lia).
    exact (nth_error_replace_nth_eq h l _ _ Hl).
  - exact P.
  - exact Hdesc.
  - exact Hties.
Qed.

(** The score cell of a row of the returned frame. *)
Lemma scores_of_nth (rs out : list hcp) (k : nat) (r : hcp) :
  Permutation out rs ->
  nth_error out k = Some r ->
  nth_error (scores_of out) k = Some (score_of (float64_weights rs) r).
Proof.
  intros P Hk. unfold scores_of. rewrite (float64_weights_perm _ _ P).
  now apply map_nth_error.
Qed.

Lemma one_to_NoDup (n : nat) : NoDup (one_to n).
Proof.
  unfold one_to. apply Injective_map_NoDup.
  - intros x y. apply Nat2Z.inj.
  - apply seq_NoDup.
Qed.

Lemma Some_eq {A} (x y : A) : Some x = Some y -> x = y.
Proof. intros H. now inversion H. Qed.

Lemma ranked_ranks (out : list hcp) :
  priority_rank (ranked out) = Some (one_to (length out)).
Proof.
  unfold ranked, set_priority_rank. simpl. now rewrite ranks_one_to.
Qed.

(** C3, amended: for a table of int64 rx values, the ranks of the returned
    frame are [1 .. N] in this order, hence a permutation of [1 .. N]
    without gaps or repeats; the returned rows are the input rows, and each
    has its rank and a score cell: a number when its behaviour is High,
    Medium or Low (the product of rx value and weight where that product
    fits the column), NaN when it is not. *)
Theorem rank_hcps_ranks_permutation argsort (h : heap) (l : ref)
    (rs : list hcp) :
  int64_column rs ->
  argsort_spec argsort ->
  nth_error h l = Some (base_table rs) ->
  exists l' h' d scores ranks,
    rank_hcps argsort l h = (inr l', h') /\
    nth_error h' l' = Some d /\
    Permutation (records d) rs /\
    score d = Some scores /\ length scores = length rs /\
    priority_rank d = Some ranks /\ length ranks = length rs /\
    ranks = one_to (length rs) /\
    Permutation ranks (one_to (length rs)) /\
    NoDup ranks /\
    forall k r,
      nth_error (records d) k = Some r ->
      nth_error ranks k = Some (Z.of_nat k + 1) /\
      nth_error scores k = Some (score_of (float64_weights rs) r) /\
      (forall w,
         weight (writing_behavior r) w ->
         exists x,
           nth_error scores k = Some (Some x) /\
           (exact_product (float64_weights rs) (rx_value r * w) ->
            x = rx_value r * w)) /\
      (writing_behavior r <> "High" ->
       writing_behavior r <> "Medium" ->
       writing_behavior r <> "Low" ->
       nth_error scores k = Some None).
Proof.
  intros _ Hspec Hl.
  destruct (rank_hcps_post argsort h l rs Hspec Hl)
    as (out & h' & Hrun & Hret & _ & P & _).
  pose proof (Permutation_length P) as Hlen.
  exists (S (length h)), h', (ranked out), (scores_of out),
    (one_to (length rs)).
  split; [exact Hrun|]. split; [exact Hret|]. split; [exact P|].
  split; [reflexivity|].
  split; [now rewrite scores_of_length|].
  split; [now rewrite ranked_ranks, Hlen|].
  split; [unfold one_to; now rewrite length_map, length_seq|].
  split; [reflexivity|]. split; [reflexivity|].
  split; [apply one_to_NoDup|].
  intros k r Hk. simpl in Hk.
  pose proof (scores_of_nth rs out k r P Hk) as Hc.
  split; [|split; [exact Hc|split]].
  - apply one_to_nth. rewrite <- Hlen.
    apply nth_error_Some. rewrite Hk. discriminate.
  - intros w W. rewrite Hc, (score_of_weight _ r w W).
    eexists. split; [reflexivity|].
    intros Hx. pose proof (score_of_exact _ r w W Hx) as E.
    rewrite (score_of_weight _ r w W) in E. now apply Some_eq.
  - intros N1 N2 N3. rewrite Hc. f_equal. apply score_of_nan. auto.
Qed.

Lemma rank_hcps_ranks_permutation_witness :
  exists l' h' d scores ranks,
    rank_hcps insertion_argsort 0%nat [base_table sample] = (inr l', h') /\
    nth_error h' l' = Some d /\
    Permutation (records d) sample /\
    score d = Some scores /\ length scores = length sample /\
    priority_rank d = Some ranks /\ length ranks = length sample /\
    ranks = one_to (length sample) /\
    Permutation ranks (one_to (length sample)) /\
    NoDup ranks /\
    forall k r,
      nth_error (records d) k = Some r ->
      nth_error ranks k = Some (Z.of_nat k + 1) /\
      nth_error scores k = Some (score_of (float64_weights sample) r) /\
      (forall w,
         weight (writing_behavior r) w ->
         exists x,
           nth_error scores k = Some (Some x) /\
           (exact_product (float64_weights sample) (rx_value r * w) ->
            x = rx_value r * w)) /\
      (writing_behavior r <> "High" ->
       writing_behavior r <> "Medium" ->
       writing_behavior r <> "Low" ->
       nth_error scores k = Some None).
Proof.
  apply (rank_hcps_ranks_permutation insertion_argsort [base_table sample]
           0%nat sample).
  - repeat constructor; simpl; lia.
  - exact insertion_argsort_spec.
  - reflexivity.
Defined.

(** C3 as stated fails: the third record of the sample, whose behaviour is
    none of the three, comes back last, with rank 6 and no score. *)
Lemma rank_hcps_leaves_score_missing :
  exists h' d scores ranks,
    rank_hcps insertion_argsort 0%nat [base_table sample] = (inr 2%nat, h') /\
    nth_error h' 2 = Some d /\
    score d = Some scores /\
    priority_rank d = Some ranks /\
    nth_error (records d) 5 =
      Some (mk_hcp "1000000002" "Oncology" 800 "TX" "Unknown") /\
    nth_error ranks 5 = Some 6 /\
    nth_error scores 5 = Some None.
Proof.
  eexists. eexists. eexists. eexists.
  split; [vm_compute; reflexivity|].
  repeat split.
Qed.

(** C4, amended: in the returned frame the score of a record whose behaviour
    is High, Medium or Low is its rx value times 3, 2 or 1 where that
    product fits the score column: within the int64 range when every
    behaviour of the table has a weight, below [2^53] in magnitude when one
    has none and the column is float64. *)
Theorem rank_hcps_score_weighted argsort (h : heap) (l : ref)
    (rs : list hcp) :
  int64_column rs ->
  argsort_spec argsort ->
  nth_error h l = Some (base_table rs) ->
  exists l' h' d scores,
    rank_hcps argsort l h = (inr l', h') /\
    nth_error h' l' = Some d /\
    Permutation (records d) rs /\
    score d = Some scores /\
    forall k r w,
      nth_error (records d) k = Some r ->
      weight (writing_behavior r) w ->
      exact_product (float64_weights rs) (rx_value r * w) ->
      nth_error scores k = Some (Some (rx_value r * w)).
Proof.
  intros _ Hspec Hl.
  destruct (rank_hcps_post argsort h l rs Hspec Hl)
    as (out & h' & Hrun & Hret & _ & P & _).
  exists (S (length h)), h', (ranked out), (scores_of out).
  repeat split; try assumption.
  intros k r w Hk W Hx. simpl in Hk.
  rewrite (scores_of_nth rs out k r P Hk).
  now rewrite (score_of_exact _ r w W Hx).
Qed.

Lemma rank_hcps_score_weighted_witness :
  exists l' h' d scores,
    rank_hcps insertion_argsort 0%nat [base_table sample] = (inr l', h') /\
    nth_error h' l' = Some d /\
    Permutation (records d) sample /\
    score d = Some scores /\
    forall k r w,
      nth_error (records d) k = Some r ->
      weight (writing_behavior r) w ->
      exact_product (float64_weights sample) (rx_value r * w) ->
      nth_error scores k = Some (Some (rx_value r * w)).
Proof.
  apply (rank_hcps_score_weighted insertion_argsort [base_table sample]
           0%nat sample).
  - repeat constructor; simpl; lia.
  - exact insertion_argsort_spec.
  - reflexivity.
Defined.

(** C4 as stated fails: three times [2^62] does not fit an int64, and the
    High writer with that rx value comes back with a negative score, after
    the Low writer with rx value 1000. *)
Lemma rank_hcps_score_wraps :
  int64_column large /\
  exists h' d scores r,
    rank_hcps insertion_argsort 0%nat [base_table large] = (inr 2%nat, h') /\
    nth_error h' 2 = Some d /\
    score d = Some scores /\
    nth_error (records d) 1 = Some r /\
    weight (writing_behavior r) 3 /\
    rx_value r * 3 = 13835058055282163712 /\
    nth_error scores 1 = Some (Some (-4611686018427387904)).
Proof.
  split; [repeat constructor; simpl; lia|].
  eexists. eexists. eexists. eexists.
  split; [vm_compute; reflexivity|].
  repeat split. constructor.
Qed.

(** Nor is the product exact in a float64 column: next to a behaviour
    without a weight, [2^53 + 1] times 1 is [2^53], and ties with it. *)
Example rank_hcps_score_rounds :
  int64_column close /\
  exists h' d,
    rank_hcps insertion_argsort 0%nat [base_table close] = (inr 2%nat, h') /\
    nth_error h' 2 = Some d /\
    map rx_value (records d) =
      [9007199254740993; 9007199254740992; 800] /\
    score d =
      Some [Some 9007199254740992; Some 9007199254740992; None].
Proof.
  split; [repeat constructor; simpl; lia|].
  eexists. eexists.
  split; [vm_compute; reflexivity|].
  repeat split.
Qed.

(** C7: the call returns (no exception), and in the returned frame the score
    of a record whose behaviour is none of High, Medium and Low is NaN. *)
Theorem rank_hcps_score_missing argsort (h : heap) (l : ref)
    (rs : list hcp) :
  argsort_spec argsort ->
  nth_error h l = Some (base_table rs) ->
  exists l' h' d scores,
    rank_hcps argsort l h = (inr l', h') /\
    nth_error h' l' = Some d /\
    Permutation (records d) rs /\
    score d = Some scores /\
    forall k r,
      nth_error (records d) k = Some r ->
      writing_behavior r <> "High" ->
      writing_behavior r <> "Medium" ->
      writing_behavior r <> "Low" ->
      nth_error scores k = Some None.
Proof.
  intros Hspec Hl.
  destruct (rank_hcps_post argsort h l rs Hspec Hl)
    as (out & h' & Hrun & Hret & _ & P & _).
  exists (S (length h)), h', (ranked out), (scores_of out).
  repeat split; try assumption.
  intros k r Hk N1 N2 N3. simpl in Hk.
  rewrite (scores_of_nth rs out k r P Hk).
  f_equal. apply score_of_nan. auto.
Qed.

Lemma rank_hcps_score_missing_witness :
  exists l' h' d scores,
    rank_hcps insertion_argsort 0%nat [base_table sample] = (inr l', h') /\
    nth_error h' l' = Some d /\
    Permutation (records d) sample /\
    score d = Some scores /\
    forall k r,
      nth_error (records d) k = Some r ->
      writing_behavior r <> "High" ->
      writing_behavior r <> "Medium" ->
      writing_behavior r <> "Low" ->
      nth_error scores k = Some None.
Proof.
  apply (rank_hcps_score_missing insertion_argsort [base_table sample]
           0%nat sample insertion_argsort_spec).
  reflexivity.
Defined.

(** C10: in the returned frame a record has a NaN score exactly when its
    behaviour is none of High, Medium and Low; every row has a rank, its
    position plus one; and a row with a NaN score ranks after every row with
    a number for a score. *)
Theorem rank_hcps_missing_last argsort (h : heap) (l : ref)
    (rs : list hcp) :
  argsort_spec argsort ->
  nth_error h l = Some (base_table rs) ->
  exists l' h' d scores ranks,
    rank_hcps argsort l h = (inr l', h') /\
    nth_error h' l' = Some d /\
    Permutation (records d) rs /\
    score d = Some scores /\
    priority_rank d = Some ranks /\
    (forall k r,
       nth_error (records d) k = Some r ->
       (nth_error scores k = Some None <->
        writing_behavior r <> "High" /\ writing_behavior r <> "Medium" /\
        writing_behavior r <> "Low") /\
       nth_error ranks k = Some (Z.of_nat k + 1)) /\
    (forall i j x,
       nth_error scores i = Some None ->
       nth_error scores j = Some (Some x) ->
       exists ri rj,
         nth_error ranks i = Some ri /\ nth_error ranks j = Some rj /\
         rj < ri).
Proof.
  intros Hspec Hl.
  destruct (rank_hcps_post argsort h l rs Hspec Hl)
    as (out & h' & Hrun & Hret & _ & P & Hdesc & Hties).
  exists (S (length h)), h', (ranked out), (scores_of out),
    (one_to (length out)).
  split; [exact Hrun|]. split; [exact Hret|]. split; [exact P|].
  split; [reflexivity|].
  split; [unfold ranked, set_priority_rank; simpl; now rewrite ranks_one_to|].
  split.
  - intros k r Hk. simpl in Hk. split.
    + rewrite (scores_of_nth rs out k r P Hk).
      rewrite <- (score_of_nan (float64_weights rs)).
      split; intros E; [now inversion E|now rewrite E].
    + apply one_to_nth. apply nth_error_Some. rewrite Hk. discriminate.
  - intros i j x Hi Hj.
    assert (Li : (i < length out)%nat).
    { rewrite <- scores_of_length. apply nth_error_Some.
      rewrite Hi. discriminate. }
    assert (Lj : (j < length out)%nat).
    { rewrite <- scores_of_length. apply nth_error_Some.
      rewrite Hj. discriminate. }
    exists (Z.of_nat i + 1), (Z.of_nat j + 1).
    split; [now apply one_to_nth|]. split; [now apply one_to_nth|].
    destruct (Nat.lt_trichotomy i j) as [Hlt|[Heq|Hgt]]; [| |lia].
    + exfalso. exact (StronglySorted_nth score_ge _ i j None (Some x)
                        Hdesc Hlt Hi Hj).
    + subst. rewrite Hi in Hj. discriminate.
Qed.

Lemma rank_hcps_missing_last_witness :
  exists l' h' d scores ranks,
    rank_hcps insertion_argsort 0%nat [base_table sample] = (inr l', h') /\
    nth_error h' l' = Some d /\
    Permutation (records d) sample /\
    score d = Some scores /\
    priority_rank d = Some ranks /\
    (forall k r,
       nth_error (records d) k = Some r ->
       (nth_error scores k = Some None <->
        writing_behavior r <> "High" /\ writing_behavior r <> "Medium" /\
        writing_behavior r <> "Low") /\
       nth_error ranks k = Some (Z.of_nat k + 1)) /\
    (forall i j x,
       nth_error scores i = Some None ->
       nth_error scores j = Some (Some x) ->
       exists ri rj,
         nth_error ranks i = Some ri /\ nth_error ranks j = Some rj /\
         rj < ri).
Proof.
  apply (rank_hcps_missing_last insertion_argsort [base_table sample]
           0%nat sample insertion_argsort_spec).
  reflexivity.
Defined.

(** ** Ties *)

(** C6, amended: for a table of int64 rx values, the returned rows are the
    input rows in descending order of the cells of the score column (the
    int64 or float64 products), the rows without a score last, ranked
    [1 .. N] in that order; rows with one score cell keep their input order
    when the argsort that runs is stable (stated for tables without repeated
    rows, where the order of two rows is defined). *)
Theorem rank_hcps_sorted_descending argsort (h : heap) (l : ref)
    (rs : list hcp) :
  int64_column rs ->
  argsort_spec argsort ->
  nth_error h l = Some (base_table rs) ->
  exists l' h' d scores,
    rank_hcps argsort l h = (inr l', h') /\
    nth_error h' l' = Some d /\
    Permutation (records d) rs /\
    score d = Some scores /\
    scores = map (score_of (float64_weights rs)) (records d) /\
    StronglySorted score_ge scores /\
    priority_rank d = Some (one_to (length rs)) /\
    (stable_argsort argsort -> NoDup rs -> stable_ranking rs (records d)).
Proof.
  intros _ Hspec Hl.
  destruct (rank_hcps_post argsort h l rs Hspec Hl)
    as (out & h' & Hrun & Hret & _ & P & Hdesc & Hties).
  exists (S (length h)), h', (ranked out), (scores_of out).
  split; [exact Hrun|]. split; [exact Hret|]. split; [exact P|].
  split; [reflexivity|].
  split; [unfold scores_of; now rewrite (float64_weights_perm _ _ P)|].
  split; [exact Hdesc|].
  split; [|exact Hties].
  now rewrite ranked_ranks, (Permutation_length P).
Qed.

Lemma rank_hcps_sorted_descending_witness :
  exists l' h' d scores,
    rank_hcps insertion_argsort 0%nat [base_table sample] = (inr l', h') /\
    nth_error h' l' = Some d /\
    Permutation (records d) sample /\
    score d = Some scores /\
    scores = map (score_of (float64_weights sample)) (records d) /\
    StronglySorted score_ge scores /\
    priority_rank d = Some (one_to (length sample)) /\
    (stable_argsort insertion_argsort -> NoDup sample ->
     stable_ranking sample (records d)).
Proof.
  apply (rank_hcps_sorted_descending insertion_argsort [base_table sample]
           0%nat sample).
  - repeat constructor; simpl; lia.
  - exact insertion_argsort_spec.
  - reflexivity.
Defined.

(** C6 as stated fails: on eighteen rows with one score the quicksort swaps
    the middle position with the last but one and then mirrors the range in
    between, and the frame comes back with rows 2 to 16 in reverse. *)
Lemma rank_hcps_reorders_ties :
  Aquicksort.aquicksort (map (fun _ => 100) (seq 0 18)) =
    Some [0; 15; 14; 13; 12; 11; 10; 9; 8; 7; 6; 5; 4; 3; 2; 1; 16; 17]%nat /\
  exists h' d,
    rank_hcps quicksort_argsort 0%nat [base_table tied] = (inr 2%nat, h') /\
    nth_error h' 2 = Some d /\
    map npi_id (records d) =
      ["1000000000"; "1000000001"; "1000000016"; "1000000015"; "1000000014";
       "1000000013"; "1000000012"; "1000000011"; "1000000010"; "1000000009";
       "1000000008"; "1000000007"; "1000000006"; "1000000005"; "1000000004";
       "1000000003"; "1000000002"; "1000000017"] /\
    ~ stable_ranking tied (records d).
Proof.
  split; [vm_compute; reflexivity|].
  eexists. eexists. split; [vm_compute; reflexivity|].
  split; [reflexivity|]. split; [reflexivity|].
  intros H.
  pose proof (H 2%nat 3%nat _ _ 16%nat 15%nat ltac:(lia)
                eq_refl eq_refl eq_refl eq_refl eq_refl) as C.
  lia.
Qed.

(** Nor does the contract of [argsort] decide ties: a sort that meets it
    returns two rows with one score in reverse. *)
Lemma stability_not_in_contract :
  exists argsort, argsort_spec argsort /\
  exists h' d,
    rank_hcps argsort 0%nat [base_table (firstn 2 tied)] = (inr 2%nat, h') /\
    nth_error h' 2 = Some d /\
    ~ stable_ranking (firstn 2 tied) (records d).
Proof.
  exists front_insertion_argsort. split; [exact front_insertion_argsort_spec|].
  eexists. eexists. split; [vm_compute; reflexivity|].
  split; [reflexivity|].
  intros H.
  pose proof (H 0%nat 1%nat _ _ 1%nat 0%nat ltac:(lia)
                eq_refl eq_refl eq_refl eq_refl eq_refl) as C.
  lia.
Qed.

(** ** The pipeline *)

(** Below five rows the Segmenter raises on the frame the Ranker returns. *)
Lemma segment_after_rank_small argsort (h : heap) (l : ref) (rs : list hcp) :
  argsort_spec argsort ->
  nth_error h l = Some (base_table rs) ->
  (length rs < 5)%nat ->
  exists out h',
    rank_hcps argsort l h = (inr (S (length h)), h') /\
    nth_error h' (S (length h)) = Some (ranked out) /\
    Permutation out rs /\
    segment_hcps (S (length h)) h' = (inl ValueError, h').
Proof.
  intros Hspec Hl Hn.
  destruct (rank_hcps_post argsort h l rs Hspec Hl)
    as (out & h' & Hrun & Hret & _ & P & _).
  exists out, h'. repeat split; try assumption.
  apply (segment_hcps_small h' _ (ranked out) _ Hret (ranked_ranks out)).
  unfold len. simpl. now rewrite (Permutation_length P).
Qed.

(** From five rows on the Segmenter labels the frame the Ranker returns, in
    place. *)
Lemma segment_after_rank argsort (h : heap) (l : ref) (rs : list hcp) :
  argsort_spec argsort ->
  nth_error h l = Some (base_table rs) ->
  (5 <= length rs)%nat ->
  exists out h',
    rank_hcps argsort l h = (inr (S (length h)), h') /\
    nth_error h' (S (length h)) = Some (ranked out) /\
    nth_error h' l = Some (scored rs) /\
    Permutation out rs /\
    segment_hcps (S (length h)) h' =
      (inr (S (length h)),
       replace_nth h' (S (length h))
         (set_segment (ranked out)
            (map (segment_label (Z.of_nat (length rs)))
                 (one_to (length rs))))).
Proof.
  intros Hspec Hl Hn.
  destruct (rank_hcps_post argsort h l rs Hspec Hl)
    as (out & h' & Hrun & Hret & Hown & P & _).
  exists out, h'. repeat split; try assumption.
  pose proof (Permutation_length P) as Hlen.
  rewrite (segment_hcps_run h' _ (ranked out) _ Hret (ranked_ranks out)).
  - unfold len. simpl. now rewrite Hlen.
  - unfold len. simpl. lia.
Qed.

Lemma app_pipeline_small argsort (h : heap) (l : ref) (rs : list hcp) :
  argsort_spec argsort ->
  nth_error h l = Some (base_table rs) ->
  (length rs < 5)%nat ->
  exists h', app_pipeline argsort l h = (inl ValueError, h').
Proof.
  intros Hspec Hl Hn.
  destruct (segment_after_rank_small argsort h l rs Hspec Hl Hn)
    as (out & h' & Hrun & _ & _ & Hseg).
  exists h'. unfold app_pipeline.
  erewrite bind_run by exact Hrun.
  erewrite bind_raise by exact Hseg. reflexivity.
Qed.

Lemma app_pipeline_run argsort (h : heap) (l : ref) (rs : list hcp) :
  argsort_spec argsort ->
  nth_error h l = Some (base_table rs) ->
  (5 <= length rs)%nat ->
  exists out h',
    Permutation out rs /\
    app_pipeline argsort l h =
      (inr (scored rs,
            set_segment (ranked out)
              (map (segment_label (Z.of_nat (length rs)))
                   (one_to (length rs))),
            map (fun r => (npi_id r,
                           affinity_label (speciality r) (writing_behavior r)))
                out),
       h').
Proof.
  intros Hspec Hl Hn.
  destruct (segment_after_rank argsort h l rs Hspec Hl Hn)
    as (out & h' & Hrun & Hret & Hown & P & Hseg).
  assert (Hlt : (l < length h)%nat)
    by (apply nth_error_Some; rewrite Hl; discriminate).
  set (seg := set_segment (ranked out)
                (map (segment_label (Z.of_nat (length rs)))
                     (one_to (length rs)))) in *.
  assert (H2 : nth_error (replace_nth h' (S (length h)) seg) (S (length h))
               = Some seg)
    by exact (nth_error_replace_nth_eq h' _ seg _ Hret).
  assert (H3 : nth_error (replace_nth h' (S (length h)) seg) l
               = Some (scored rs)).
  { rewrite nth_error_replace_nth_ne by lia. exact Hown. }
  exists out. eexists. split; [exact P|].
  unfold app_pipeline.
  erewrite bind_run by exact Hrun.
  erewrite bind_run by exact Hseg.
  erewrite bind_run by (apply channel_affinity_run; exact H2).
  run_deref H3. run_deref H2. reflexivity.
Qed.

(** C9: for a table of int64 rx values, the call adds the score column (the
    int64 or float64 products, NaN for a behaviour without a weight) to the
    frame the caller passed (its rows as they were, in their order, and no
    rank column) and returns another frame; so the table [app.py] shows and
    exports under "Current HCP Data" is the caller's rows with the score
    column, whenever the pipeline gets that far, which it does from five
    rows on. *)
Theorem rank_hcps_mutates_argument argsort (h : heap) (l : ref)
    (rs : list hcp) :
  int64_column rs ->
  argsort_spec argsort ->
  nth_error h l = Some (base_table rs) ->
  (exists l' h',
     rank_hcps argsort l h = (inr l', h') /\
     l' <> l /\
     nth_error h' l = Some (mk_df rs (Some (scores_of rs)) None None)) /\
  (forall shown segmented affinity h',
     app_pipeline argsort l h = (inr (shown, segmented, affinity), h') ->
     shown = mk_df rs (Some (scores_of rs)) None None) /\
  ((5 <= length rs)%nat ->
   exists segmented affinity h',
     app_pipeline argsort l h =
       (inr (mk_df rs (Some (scores_of rs)) None None,
             segmented, affinity), h')).
Proof.
  intros _ Hspec Hl.
  assert (Hlt : (l < length h)%nat)
    by (apply nth_error_Some; rewrite Hl; discriminate).
  split; [|split].
  - destruct (rank_hcps_post argsort h l rs Hspec Hl)
      as (out & h' & Hrun & _ & Hown & _).
    exists (S (length h)), h'. split; [exact Hrun|]. split; [lia|exact Hown].
  - intros shown segmented affinity h' Happ.
    destruct (Nat.lt_ge_cases (length rs) 5) as [Hn|Hn].
    + destruct (app_pipeline_small argsort h l rs Hspec Hl Hn) as (h2 & E).
      rewrite E in Happ. discriminate.
    + destruct (app_pipeline_run argsort h l rs Hspec Hl Hn)
        as (out & h2 & _ & E).
      rewrite E in Happ. now inversion Happ.
  - intros Hn.
    destruct (app_pipeline_run argsort h l rs Hspec Hl Hn)
      as (out & h2 & _ & E).
    eexists. eexists. eexists. exact E.
Qed.

Lemma rank_hcps_mutates_argument_witness :
  (exists l' h',
     rank_hcps insertion_argsort 0%nat [base_table sample] = (inr l', h') /\
     l' <> 0%nat /\
     nth_error h' 0 =
       Some (mk_df sample (Some (scores_of sample)) None None)) /\
  (forall shown segmented affinity h',
     app_pipeline insertion_argsort 0%nat [base_table sample] =
       (inr (shown, segmented, affinity), h') ->
     shown = mk_df sample (Some (scores_of sample)) None None) /\
  ((5 <= length sample)%nat ->
   exists segmented affinity h',
     app_pipeline insertion_argsort 0%nat [base_table sample] =
       (inr (mk_df sample (Some (scores_of sample)) None None,
             segmented, affinity), h')).
Proof.
  apply (rank_hcps_mutates_argument insertion_argsort [base_table sample]
           0%nat sample).
  - repeat constructor; simpl; lia.
  - exact insertion_argsort_spec.
  - reflexivity.
Defined.

(** ** Claims on the Segmenter *)

(** From five rows on, the segments of the ranks [1 .. N] are the three
    intervals cut at [N/5] and [N/2]: every rank has exactly one label, rank
    1 is in the top segment and rank [N] in the bottom one. *)
Lemma segment_hcps_partition argsort (h : heap) (l : ref) (rs : list hcp) :
  argsort_spec argsort ->
  nth_error h l = Some (base_table rs) ->
  (5 <= length rs)%nat ->
  exists l' h' h'' d segs,
    rank_hcps argsort l h = (inr l', h') /\
    segment_hcps l' h' = (inr l', h'') /\
    nth_error h'' l' = Some d /\
    priority_rank d = Some (one_to (length rs)) /\
    segment d = Some segs /\
    length segs = length rs /\
    (forall k, (k < length rs)%nat ->
       let r := Z.of_nat k + 1 in
       let n := Z.of_nat (length rs) in
       nth_error segs k =
         Some (Some (if r <=? n / 5 then "Top 20%"
                     else if r <=? n / 2 then "Middle 30%"
                     else "Bottom 50%"))) /\
    nth_error segs 0 = Some (Some "Top 20%") /\
    nth_error segs (length rs - 1) = Some (Some "Bottom 50%").
Proof.
  intros Hspec Hl Hn.
  destruct (segment_after_rank argsort h l rs Hspec Hl Hn)
    as (out & h' & Hrun & Hret & _ & P & Hseg).
  pose proof (Permutation_length P) as Hlen.
  set (n := Z.of_nat (length rs)) in *.
  assert (Hcell : forall k, (k < length rs)%nat ->
            nth_error (map (segment_label n) (one_to (length rs))) k =
            Some (Some (if Z.of_nat k + 1 <=? n / 5 then "Top 20%"
                        else if Z.of_nat k + 1 <=? n / 2 then "Middle 30%"
                        else "Bottom 50%"))).
  { intros k Hk.
    rewrite (map_nth_error _ k _ (one_to_nth (length rs) k Hk)).
    f_equal. unfold segment_label.
    destruct (Z.leb_spec 0 (Z.of_nat k + 1)); [|lia].
    destruct (Z.leb_spec (Z.of_nat k + 1) (n / 5)); [reflexivity|].
    destruct (Z.ltb_spec (n / 5) (Z.of_nat k + 1)); [|lia].
    destruct (Z.leb_spec (Z.of_nat k + 1) (n / 2)); [reflexivity|].
    destruct (Z.ltb_spec (n / 2) (Z.of_nat k + 1)); [|lia].
    destruct (Z.leb_spec (Z.of_nat k + 1) n); [reflexivity|]. lia. }
  destruct (bins_strict n ltac:(lia)) as (Ha & Hab & Hb).
  eexists. exists h'. eexists. eexists. eexists.
  split; [exact Hrun|]. split; [exact Hseg|].
  split; [exact (nth_error_replace_nth_eq h' _ _ _ Hret)|].
  split; [simpl; now rewrite ranks_one_to, Hlen|].
  split; [reflexivity|].
  split; [unfold one_to; now rewrite !length_map, length_seq|].
  split; [exact Hcell|]. split.
  - rewrite (Hcell 0%nat) by lia. simpl Z.of_nat.
    destruct (Z.leb_spec (0 + 1) (n / 5)); [reflexivity|lia].
  - rewrite (Hcell (length rs - 1)%nat) by lia.
    replace (Z.of_nat (length rs - 1) + 1) with n by lia.
    destruct (Z.leb_spec n (n / 5)); [lia|].
    destruct (Z.leb_spec n (n / 2)); [lia|reflexivity].
Qed.

(** C1, where the code parts from it: on a ranked table of one to four rows
    the Segmenter raises [ValueError] and labels nothing. *)
Theorem segment_hcps_raises_below_five argsort (h : heap) (l : ref)
    (rs : list hcp) :
  argsort_spec argsort ->
  nth_error h l = Some (base_table rs) ->
  (1 <= length rs < 5)%nat ->
  exists l' h' d,
    rank_hcps argsort l h = (inr l', h') /\
    nth_error h' l' = Some d /\
    priority_rank d = Some (one_to (length rs)) /\
    segment_hcps l' h' = (inl ValueError, h') /\
    segment d = None.
Proof.
  intros Hspec Hl [_ Hn].
  destruct (segment_after_rank_small argsort h l rs Hspec Hl Hn)
    as (out & h' & Hrun & Hret & P & Hseg).
  exists (S (length h)), h', (ranked out).
  repeat split; try assumption.
  now rewrite ranked_ranks, (Permutation_length P).
Qed.

Lemma segment_hcps_raises_below_five_witness :
  exists l' h' d,
    rank_hcps insertion_argsort 0%nat [base_table (firstn 1 sample)] =
      (inr l', h') /\
    nth_error h' l' = Some d /\
    priority_rank d = Some (one_to 1) /\
    segment_hcps l' h' = (inl ValueError, h') /\
    segment d = None.
Proof.
  apply (segment_hcps_raises_below_five insertion_argsort
           [base_table (firstn 1 sample)] 0%nat (firstn 1 sample)
           insertion_argsort_spec).
  - reflexivity.
  - simpl. lia.
Defined.

(** C2, where the code parts from it: on the empty table the Ranker returns
    an empty frame with empty score and rank columns, and the Segmenter
    raises [ValueError] on that frame. *)
Theorem empty_table_ranked_not_segmented argsort (h : heap) (l : ref) :
  argsort_spec argsort ->
  nth_error h l = Some (base_table []) ->
  exists l' h',
    rank_hcps argsort l h = (inr l', h') /\
    nth_error h' l' = Some (mk_df [] (Some []) (Some []) None) /\
    segment_hcps l' h' = (inl ValueError, h').
Proof.
  intros Hspec Hl.
  destruct (segment_after_rank_small argsort h l [] Hspec Hl)
    as (out & h' & Hrun & Hret & P & Hseg); [simpl; lia|].
  apply Permutation_sym, Permutation_nil in P. subst out.
  exists (S (length h)), h'. repeat split; assumption.
Qed.

Lemma empty_table_ranked_not_segmented_witness :
  exists l' h',
    rank_hcps insertion_argsort 0%nat [base_table []] = (inr l', h') /\
    nth_error h' l' = Some (mk_df [] (Some []) (Some []) None) /\
    segment_hcps l' h' = (inl ValueError, h').
Proof.
  apply (empty_table_ranked_not_segmented insertion_argsort
           [base_table []] 0%nat insertion_argsort_spec).
  reflexivity.
Defined.

(** ** Claim on the Channel Classifier *)

Lemma affinity_label_in_person (specialty behavior : string) :
  affinity_label specialty behavior = "In-person" <->
  behavior = "High" \/ specialty = "Cardiology" \/ specialty = "Oncology".
Proof.
  unfold affinity_label.
  destruct (String.eqb_spec behavior "High") as [E1|N1]; [tauto|].
  destruct (String.eqb_spec specialty "Cardiology") as [E2|N2]; [tauto|].
  destruct (String.eqb_spec specialty "Oncology") as [E3|N3]; [tauto|].
  split; [discriminate|]. intros [H|[H|H]]; contradiction.
Qed.

Lemma affinity_label_email (specialty behavior : string) :
  affinity_label specialty behavior = "Email" <->
  ~ (behavior = "High" \/ specialty = "Cardiology" \/ specialty = "Oncology").
Proof.
  rewrite <- affinity_label_in_person. unfold affinity_label.
  destruct (String.eqb behavior "High");
    [|destruct (String.eqb specialty "Cardiology");
      [|destruct (String.eqb specialty "Oncology")]];
    split; intros H; try discriminate; try reflexivity;
    try (exfalso; apply H; reflexivity).
Qed.

(** C5: the table has one row per record of the frame, in the frame's order,
    made of the record's id and a label that is a function of its specialty
    and writing behaviour alone: "In-person" exactly for behaviour High or
    specialty Cardiology or Oncology, "Email" exactly otherwise.  The store
    is left as it was, and a frame with the same rows in another order, and
    whatever derived columns, gets the same rows in that order. *)
Theorem channel_affinity_classifies (h : heap) (l : ref) (d : DataFrame) :
  nth_error h l = Some d ->
  exists classify : string -> string -> string,
    (forall specialty behavior,
       classify specialty behavior = "In-person" <->
       behavior = "High" \/ specialty = "Cardiology" \/
       specialty = "Oncology") /\
    (forall specialty behavior,
       classify specialty behavior = "Email" <->
       ~ (behavior = "High" \/ specialty = "Cardiology" \/
          specialty = "Oncology")) /\
    exists t,
      channel_affinity l h = (inr t, h) /\
      length t = len d /\
      t = map (fun r => (npi_id r,
                         classify (speciality r) (writing_behavior r)))
              (records d) /\
      forall h2 l2 d2,
        nth_error h2 l2 = Some d2 ->
        Permutation (records d) (records d2) ->
        exists t2,
          channel_affinity l2 h2 = (inr t2, h2) /\ Permutation t t2.
Proof.
  intros Hl. exists affinity_label.
  split; [exact affinity_label_in_person|].
  split; [exact affinity_label_email|].
  eexists. split; [exact (channel_affinity_run h l d Hl)|].
  split; [unfold len; now rewrite length_map|].
  split; [reflexivity|].
  intros h2 l2 d2 Hl2 P.
  eexists. split; [exact (channel_affinity_run h2 l2 d2 Hl2)|].
  now apply Permutation_map.
Qed.

Lemma channel_affinity_classifies_witness :
  exists classify : string -> string -> string,
    (forall specialty behavior,
       classify specialty behavior = "In-person" <->
       behavior = "High" \/ specialty = "Cardiology" \/
       specialty = "Oncology") /\
    (forall specialty behavior,
       classify specialty behavior = "Email" <->
       ~ (behavior = "High" \/ specialty = "Cardiology" \/
          specialty = "Oncology")) /\
    exists t,
      channel_affinity 0%nat [base_table sample] =
        (inr t, [base_table sample]) /\
      length t = len (base_table sample) /\
      t = map (fun r => (npi_id r,
                         classify (speciality r) (writing_behavior r)))
              (records (base_table sample)) /\
      forall h2 l2 d2,
        nth_error h2 l2 = Some d2 ->
        Permutation (records (base_table sample)) (records d2) ->
        exists t2,
          channel_affinity l2 h2 = (inr t2, h2) /\ Permutation t t2.
Proof.
  apply (channel_affinity_classifies [base_table sample] 0%nat
           (base_table sample)).
  reflexivity.
Defined.

(** ** Claim on the generator *)

Section GeneratorFacts.

Variables py_state np_state : Type.
Variable py_seed : Z -> py_state.
Variable np_seed : Z -> np_state.
Variable py_choices : list string -> nat -> py_state -> list string * py_state.
Variable np_lognormal_int :
  Z * Z -> Z * Z -> nat -> np_state -> list Z * np_state.
Variable np_choice :
  list string -> nat -> list (Z * Z) -> np_state -> list string * np_state.

(** C8: the table the generator returns for a count does not depend on
    the state the two random generators are in when it is called; so a
    second call, made in the state the first one left, returns the same
    table, cell for cell, and leaves the same state.  [generate_hcp_data]
    is [synthea_simulator]. *)
Theorem generate_hcp_data_deterministic (num_hcps : nat)
    (g1 g2 : rng py_state np_state) :
  let generate :=
    generate_hcp_data py_state np_state py_seed np_seed py_choices
                      np_lognormal_int np_choice in
  generate num_hcps g1 = generate num_hcps g2 /\
  generate num_hcps (snd (generate num_hcps g1)) = generate num_hcps g1 /\
  synthea_simulator py_state np_state py_seed np_seed py_choices
    np_lognormal_int np_choice num_hcps g1 = generate num_hcps g1.
Proof.
  unfold generate_hcp_data, synthea_simulator.
  repeat split.
Qed.

End GeneratorFacts.

(** ** Scenarios A and B *)

(** On the ten records the High writer with rx value 1000 scores 3000, ranks
    first, is in the top segment and is reached in person; the Low writer
    with rx value 500 scores 500, ranks tenth, is in the bottom segment and
    is reached by email. *)
Example scenarios_A_B :
  exists shown segmented affinity h',
    app_pipeline insertion_argsort 0%nat [base_table scenario] =
      (inr (shown, segmented, affinity), h') /\
    map npi_id (records segmented) =
      ["1000000001"; "1000000004"; "1000000005"; "1000000000"; "1000000006";
       "1000000002"; "1000000003"; "1000000007"; "1000000009"; "1000000008"] /\
    score segmented =
      Some [Some 3000; Some 2400; Some 2000; Some 1800; Some 1800;
            Some 1600; Some 1400; Some 1300; Some 750; Some 500] /\
    priority_rank segmented = Some [1; 2; 3; 4; 5; 6; 7; 8; 9; 10] /\
    segment segmented =
      Some [Some "Top 20%"; Some "Top 20%";
            Some "Middle 30%"; Some "Middle 30%"; Some "Middle 30%";
            Some "Bottom 50%"; Some "Bottom 50%"; Some "Bottom 50%";
            Some "Bottom 50%"; Some "Bottom 50%"] /\
    nth_error affinity 0 = Some ("1000000001", "In-person") /\
    nth_error affinity 9 = Some ("1000000008", "Email") /\
    records shown = scenario /\
    priority_rank shown = None.
Proof.
  eexists. eexists. eexists. eexists.
  split; [vm_compute; reflexivity|].
  repeat split.
Qed.

(** ** The quicksort model at work *)

(** On forty values the quicksort partitions before the insertion sorts;
    what it returns makes the values ascend and holds every position
    once. *)
Example aquicksort_sorts :
  exists t,
    Aquicksort.aquicksort shuffled = Some t /\
    map (key shuffled) t =
      [0; 0; 1; 2; 2; 3; 3; 4; 4; 5; 5; 6; 7; 7; 8; 8; 9; 9; 10; 11; 11;
       12; 12; 13; 13; 14; 14; 15; 16; 16; 17; 17; 18; 18; 19; 20; 21; 21;
       22; 22] /\
    map (key (map Z.of_nat t)) (insertion_argsort (map Z.of_nat t)) =
      map Z.of_nat (seq 0 40).
Proof.
  eexists. split; [vm_compute; reflexivity|]. split; vm_compute; reflexivity.
Qed.

(** So does the heapsort the quicksort falls back on, here entered with the
    depth used up from the start. *)
Example aheapsort_sorts :
  exists t,
    Aquicksort.outer shuffled 41
      (Aquicksort.mk_frame (seq 0 40) 0 39 [] [] (-1)) = Some t /\
    map (key shuffled) t =
      [0; 0; 1; 2; 2; 3; 3; 4; 4; 5; 5; 6; 7; 7; 8; 8; 9; 9; 10; 11; 11;
       12; 12; 13; 13; 14; 14; 15; 16; 16; 17; 17; 18; 18; 19; 20; 21; 21;
       22; 22] /\
    map (key (map Z.of_nat t)) (insertion_argsort (map Z.of_nat t)) =
      map Z.of_nat (seq 0 40).
Proof.
  eexists. split; [vm_compute; reflexivity|]. split; vm_compute; reflexivity.
Qed.

(** On the ten records of the scenarios, fewer than seventeen, the quicksort
    is its insertion sort and the pipeline gives the same tables. *)
Example scenarios_quicksort :
  app_pipeline quicksort_argsort 0%nat [base_table scenario] =
  app_pipeline insertion_argsort 0%nat [base_table scenario].
Proof. vm_compute. reflexivity. Qed.

(** ** More on the Segmenter *)

Lemma nth_error_replace_nth_other h l d l' :
  l' <> l -> nth_error (replace_nth h l d) l' = nth_error h l'.
Proof. intros Hne. apply nth_error_replace_nth_ne. congruence. Qed.

(** X1: on a ranked frame of five rows or more [segment_hcps] returns the
    reference it was given; the frame behind it keeps its rows, scores and
    ranks and gains a segment column with, for each rank, the label of the
    interval the rank lies in; no other object of the store changes. *)
Theorem segment_hcps_in_place (h : heap) (l : ref) (d : DataFrame)
    (pr : list Z) :
  nth_error h l = Some d ->
  priority_rank d = Some pr ->
  (5 <= len d)%nat ->
  exists h' d',
    segment_hcps l h = (inr l, h') /\
    length h' = length h /\
    (forall l', l' <> l -> nth_error h' l' = nth_error h l') /\
    nth_error h' l = Some d' /\
    records d' = records d /\ score d' = score d /\
    priority_rank d' = Some pr /\
    segment d' = Some (map (segment_label (Z.of_nat (len d))) pr).
Proof.
  intros Hl Hpr Hn.
  eexists. eexists. split; [exact (segment_hcps_run h l d pr Hl Hpr Hn)|].
  split; [apply replace_nth_length|].
  split; [intros l' Hne; now apply nth_error_replace_nth_other|].
  split; [exact (nth_error_replace_nth_eq h l _ _ Hl)|].
  simpl. repeat split. exact Hpr.
Qed.

Lemma segment_hcps_in_place_witness :
  exists h' d',
    segment_hcps 0%nat [ranked scenario] = (inr 0%nat, h') /\
    length h' = length [ranked scenario] /\
    (forall l', l' <> 0%nat ->
       nth_error h' l' = nth_error [ranked scenario] l') /\
    nth_error h' 0 = Some d' /\
    records d' = records (ranked scenario) /\
    score d' = score (ranked scenario) /\
    priority_rank d' = Some (map (fun i => Z.of_nat i + 1) (seq 0 10)) /\
    segment d' =
      Some (map (segment_label (Z.of_nat (len (ranked scenario))))
                (map (fun i => Z.of_nat i + 1) (seq 0 10))).
Proof.
  apply (segment_hcps_in_place [ranked scenario] 0%nat (ranked scenario)
           (map (fun i => Z.of_nat i + 1) (seq 0 10))).
  - reflexivity.
  - reflexivity.
  - unfold len, ranked, scored, scenario. simpl. lia.
Defined.

(** X2: on a frame without a rank column [segment_hcps] raises [KeyError],
    whatever the number of rows, and leaves the store as it was. *)
Theorem segment_hcps_unranked (h : heap) (l : ref) (d : DataFrame) :
  nth_error h l = Some d ->
  priority_rank d = None ->
  segment_hcps l h = (inl KeyError, h).
Proof.
  intros Hl Hpr. unfold segment_hcps.
  run_deref Hl.
  erewrite bind_raise; [reflexivity|].
  unfold lift. now rewrite Hpr.
Qed.

Lemma segment_hcps_unranked_witness :
  segment_hcps 0%nat [base_table scenario] =
    (inl KeyError, [base_table scenario]).
Proof.
  apply (segment_hcps_unranked [base_table scenario] 0%nat
           (base_table scenario)); reflexivity.
Defined.

(** X5: the ranks being 1 or more, [include_lowest=True] changes nothing in
    what [cut] answers on the edges [segment_hcps] builds: neither whether
    it raises nor any label. *)
Theorem include_lowest_no_effect (pr : list Z) (n : Z) (labels : list string) :
  Forall (fun r => 1 <= r) pr ->
  cut pr [0; int_mul_0_2 n; int_mul_0_5 n; n] labels true =
  cut pr [0; int_mul_0_2 n; int_mul_0_5 n; n] labels false.
Proof.
  intros Hpr. unfold cut.
  destruct (negb (is_monotonic_increasing _)); [reflexivity|].
  destruct (_ && _); [reflexivity|].
  destruct (negb _); [reflexivity|].
  f_equal. apply map_ext_in. intros v Hv.
  rewrite Forall_forall in Hpr. apply Hpr in Hv.
  simpl hd. replace (v =? 0) with false by (symmetry; apply Z.eqb_neq; lia).
  reflexivity.
Qed.

Lemma include_lowest_no_effect_witness :
  cut [1; 2; 3; 4; 5; 6] [0; int_mul_0_2 6; int_mul_0_5 6; 6]
      segment_categories true =
  cut [1; 2; 3; 4; 5; 6] [0; int_mul_0_2 6; int_mul_0_5 6; 6]
      segment_categories false.
Proof.
  apply (include_lowest_no_effect [1; 2; 3; 4; 5; 6] 6 segment_categories).
  repeat constructor; lia.
Defined.

Lemma map_const_repeat {A B} (f : A -> B) (c : B) (l : list A) :
  (forall x, In x l -> f x = c) -> map f l = repeat c (length l).
Proof.
  induction l as [|x l IH]; simpl; intros H; [reflexivity|].
  rewrite H by auto. f_equal. apply IH. auto.
Qed.

Lemma map_seq_const {B} (f : nat -> B) (c : B) (start len : nat) :
  (forall x, (start <= x < start + len)%nat -> f x = c) ->
  map f (seq start len) = repeat c len.
Proof.
  intros H. rewrite (map_const_repeat f c).
  - now rewrite length_seq.
  - intros x Hx. apply H. now apply in_seq.
Qed.

Lemma filter_repeat {A} (p : A -> bool) (x : A) (k : nat) :
  filter p (repeat x k) = if p x then repeat x k else [].
Proof.
  induction k as [|k IH]; simpl; [now destruct (p x)|].
  rewrite IH. now destruct (p x).
Qed.

(** The label of the rank at a position, from five rows on. *)
Lemma segment_label_rank (N k : nat) :
  (5 <= N)%nat -> (k < N)%nat ->
  segment_label (Z.of_nat N) (Z.of_nat k + 1) =
  Some (if (k <? N / 5)%nat then "Top 20%"
        else if (k <? N / 2)%nat then "Middle 30%"
        else "Bottom 50%").
Proof.
  intros HN Hk. unfold segment_label.
  assert (E5 : Z.of_nat N / 5 = Z.of_nat (N / 5))
    by (rewrite (Nat2Z.inj_div N 5); reflexivity).
  assert (E2 : Z.of_nat N / 2 = Z.of_nat (N / 2))
    by (rewrite (Nat2Z.inj_div N 2); reflexivity).
  rewrite E5, E2.
  assert (Hab : (N / 5 <= N / 2)%nat)
    by (apply Nat.div_le_compat_l; lia).
  assert (Hb : (N / 2 <= N)%nat) by (apply Nat.Div0.div_le_upper_bound; lia).
  generalize dependent (N / 5)%nat. generalize dependent (N / 2)%nat.
  intros b _ Hb a _ Hab.
  destruct (Nat.ltb_spec k a), (Nat.ltb_spec k b),
    (Z.leb_spec 0 (Z.of_nat k + 1)), (Z.leb_spec (Z.of_nat k + 1) (Z.of_nat a)),
    (Z.ltb_spec (Z.of_nat a) (Z.of_nat k + 1)),
    (Z.leb_spec (Z.of_nat k + 1) (Z.of_nat b)),
    (Z.ltb_spec (Z.of_nat b) (Z.of_nat k + 1)),
    (Z.leb_spec (Z.of_nat k + 1) (Z.of_nat N));
    try lia; reflexivity.
Qed.

Lemma nat_bins_strict (N : nat) :
  (5 <= N)%nat -> (0 < N / 5 /\ N / 5 < N / 2 /\ N / 2 < N)%nat.
Proof.
  intros HN. destruct (bins_strict (Z.of_nat N) ltac:(lia)) as (Ha & Hab & Hb).
  assert (E5 : Z.of_nat N / 5 = Z.of_nat (N / 5))
    by (rewrite (Nat2Z.inj_div N 5); reflexivity).
  assert (E2 : Z.of_nat N / 2 = Z.of_nat (N / 2))
    by (rewrite (Nat2Z.inj_div N 2); reflexivity).
  lia.
Qed.

(** The segment column of a ranked table, from five rows on: three runs. *)
Lemma segment_runs (N : nat) :
  (5 <= N)%nat ->
  map (segment_label (Z.of_nat N)) (one_to N) =
  repeat (Some "Top 20%") (N / 5) ++
  repeat (Some "Middle 30%") (N / 2 - N / 5) ++
  repeat (Some "Bottom 50%") (N - N / 2).
Proof.
  intros HN. destruct (nat_bins_strict N HN) as (Ha & Hab & Hb).
  assert (Hsplit : seq 1 N =
            seq 1 (N / 5) ++ seq (1 + N / 5) (N / 2 - N / 5) ++
            seq (1 + N / 2) (N - N / 2)).
  { replace (1 + N / 2)%nat with (1 + N / 5 + (N / 2 - N / 5))%nat by lia.
    rewrite <- !seq_app. f_equal. lia. }
  unfold one_to. rewrite map_map, Hsplit, !map_app.
  f_equal; [|f_equal].
  - apply map_seq_const. intros x Hx.
    replace (Z.of_nat x) with (Z.of_nat (x - 1) + 1) by lia.
    rewrite segment_label_rank by lia.
    destruct (Nat.ltb_spec (x - 1) (N / 5)); [reflexivity|lia].
  - apply map_seq_const. intros x Hx.
    replace (Z.of_nat x) with (Z.of_nat (x - 1) + 1) by lia.
    rewrite segment_label_rank by lia.
    destruct (Nat.ltb_spec (x - 1) (N / 5)); [lia|].
    destruct (Nat.ltb_spec (x - 1) (N / 2)); [reflexivity|lia].
  - apply map_seq_const. intros x Hx.
    replace (Z.of_nat x) with (Z.of_nat (x - 1) + 1) by lia.
    rewrite segment_label_rank by lia.
    destruct (Nat.ltb_spec (x - 1) (N / 5)); [lia|].
    destruct (Nat.ltb_spec (x - 1) (N / 2)); [lia|reflexivity].
Qed.

Lemma seg_counts_runs (d : DataFrame) (a b c : nat) :
  segment d = Some (repeat (Some "Top 20%") a ++
                    repeat (Some "Middle 30%") b ++
                    repeat (Some "Bottom 50%") c) ->
  seg_counts d =
    inr [("Top 20%", a); ("Middle 30%", b); ("Bottom 50%", c)].
Proof.
  intros E. unfold seg_counts. rewrite E. simpl.
  rewrite !filter_app, !filter_repeat. simpl.
  rewrite !app_nil_r, !repeat_length. reflexivity.
Qed.

(** X3: from five rows on, ranking and then segmenting a table of N rows
    puts the first N/5 ranks in the top segment, the next N/2 - N/5 in the
    middle one and the last N - N/2 in the bottom one (integer quotients);
    these three numbers are the counts the segmentation chart of [app.py]
    plots. *)
Theorem segment_sizes argsort (h : heap) (l : ref) (rs : list hcp) :
  argsort_spec argsort ->
  nth_error h l = Some (base_table rs) ->
  (5 <= length rs)%nat ->
  let N := length rs in
  exists l' h' h'' d,
    rank_hcps argsort l h = (inr l', h') /\
    segment_hcps l' h' = (inr l', h'') /\
    nth_error h'' l' = Some d /\
    segment d =
      Some (repeat (Some "Top 20%") (N / 5) ++
            repeat (Some "Middle 30%") (N / 2 - N / 5) ++
            repeat (Some "Bottom 50%") (N - N / 2)) /\
    seg_counts d =
      inr [("Top 20%", N / 5); ("Middle 30%", N / 2 - N / 5);
           ("Bottom 50%", N - N / 2)]%nat.
Proof.
  intros Hspec Hl Hn N.
  destruct (segment_after_rank argsort h l rs Hspec Hl Hn)
    as (out & h' & Hrun & Hret & _ & P & Hseg).
  assert (E : segment
                (set_segment (ranked out)
                   (map (segment_label (Z.of_nat (length rs)))
                        (one_to (length rs)))) =
              Some (repeat (Some "Top 20%") (N / 5) ++
                    repeat (Some "Middle 30%") (N / 2 - N / 5) ++
                    repeat (Some "Bottom 50%") (N - N / 2)))
    by (simpl; now rewrite segment_runs).
  eexists. exists h'. eexists. eexists.
  split; [exact Hrun|]. split; [exact Hseg|].
  split; [exact (nth_error_replace_nth_eq h' _ _ _ Hret)|].
  split; [exact E|]. now apply seg_counts_runs.
Qed.

Lemma segment_sizes_witness :
  let N := length scenario in
  exists l' h' h'' d,
    rank_hcps insertion_argsort 0%nat [base_table scenario] = (inr l', h') /\
    segment_hcps l' h' = (inr l', h'') /\
    nth_error h'' l' = Some d /\
    segment d =
      Some (repeat (Some "Top 20%") (N / 5) ++
            repeat (Some "Middle 30%") (N / 2 - N / 5) ++
            repeat (Some "Bottom 50%") (N - N / 2)) /\
    seg_counts d =
      inr [("Top 20%", N / 5); ("Middle 30%", N / 2 - N / 5);
           ("Bottom 50%", N - N / 2)]%nat.
Proof.
  apply (segment_sizes insertion_argsort [base_table scenario] 0%nat scenario
           insertion_argsort_spec).
  - reflexivity.
  - unfold scenario. simpl. lia.
Defined.

Lemma segment_cell (N k : nat) (c : option string) :
  (5 <= N)%nat ->
  nth_error (map (segment_label (Z.of_nat N)) (one_to N)) k = Some c ->
  (k < N)%nat /\
  c = Some (if (k <? N / 5)%nat then "Top 20%"
            else if (k <? N / 2)%nat then "Middle 30%"
            else "Bottom 50%").
Proof.
  intros HN Hk.
  assert (Hlt : (k < N)%nat).
  { assert (Hs : nth_error (map (segment_label (Z.of_nat N)) (one_to N)) k
                 <> None) by (rewrite Hk; discriminate).
    apply nth_error_Some in Hs.
    unfold one_to in Hs. now rewrite !length_map, length_seq in Hs. }
  split; [exact Hlt|].
  rewrite (map_nth_error _ k _ (one_to_nth N k Hlt)) in Hk.
  inversion Hk as [E]. now apply segment_label_rank.
Qed.

(** X4: from five rows on, in the ranked and segmented table a row of a
    higher segment never has a smaller score than a row of a lower one
    (top over middle and bottom, middle over bottom; a missing score counts
    as smallest). *)
Theorem segments_follow_scores argsort (h : heap) (l : ref) (rs : list hcp) :
  argsort_spec argsort ->
  nth_error h l = Some (base_table rs) ->
  (5 <= length rs)%nat ->
  exists l' h' h'' d scores segs,
    rank_hcps argsort l h = (inr l', h') /\
    segment_hcps l' h' = (inr l', h'') /\
    nth_error h'' l' = Some d /\
    score d = Some scores /\
    segment d = Some segs /\
    forall i j a b x y,
      nth_error segs i = Some (Some a) ->
      nth_error segs j = Some (Some b) ->
      (a = "Top 20%" /\ b <> "Top 20%") \/
      (a = "Middle 30%" /\ b = "Bottom 50%") ->
      nth_error scores i = Some x ->
      nth_error scores j = Some y ->
      score_ge x y.
Proof.
  intros Hspec Hl Hn.
  destruct (segment_after_rank argsort h l rs Hspec Hl Hn)
    as (out & h' & Hrun & Hret & _ & P & Hseg).
  destruct (rank_hcps_post argsort h l rs Hspec Hl)
    as (out' & h2 & Hrun' & Hret' & _ & _ & Hdesc & _).
  rewrite Hrun in Hrun'. injection Hrun' as Hh. subst h2.
  rewrite Hret in Hret'.
  assert (Eout : out = out')
    by (injection Hret'; auto).
  subst out'. clear Hret'.
  eexists. exists h'. eexists. eexists. eexists. eexists.
  split; [exact Hrun|]. split; [exact Hseg|].
  split; [exact (nth_error_replace_nth_eq h' _ _ _ Hret)|].
  split; [reflexivity|]. split; [reflexivity|].
  intros i j a b x y Hi Hj Hab Hx Hy.
  destruct (segment_cell _ _ _ Hn Hi) as [Li Ei].
  destruct (segment_cell _ _ _ Hn Hj) as [Lj Ej].
  assert (Hij : (i < j)%nat).
  { destruct (nat_bins_strict (length rs) Hn) as (Q1 & Q2 & Q3).
    revert Ei Ej Q1 Q2 Q3.
    generalize (length rs / 5)%nat (length rs / 2)%nat. intros q5 q2.
    intros Ei Ej Q1 Q2 Q3.
    injection Ei as Ea. injection Ej as Eb.
    destruct (Nat.ltb_spec i q5), (Nat.ltb_spec i q2),
      (Nat.ltb_spec j q5), (Nat.ltb_spec j q2);
      subst a b; destruct Hab as [[Ha Hb]|[Ha Hb]];
      try discriminate; try congruence; lia. }
  exact (StronglySorted_nth score_ge _ i j x y Hdesc Hij Hx Hy).
Qed.

Lemma segments_follow_scores_witness :
  exists l' h' h'' d scores segs,
    rank_hcps insertion_argsort 0%nat [base_table scenario] = (inr l', h') /\
    segment_hcps l' h' = (inr l', h'') /\
    nth_error h'' l' = Some d /\
    score d = Some scores /\
    segment d = Some segs /\
    forall i j a b x y,
      nth_error segs i = Some (Some a) ->
      nth_error segs j = Some (Some b) ->
      (a = "Top 20%" /\ b <> "Top 20%") \/
      (a = "Middle 30%" /\ b = "Bottom 50%") ->
      nth_error scores i = Some x ->
      nth_error scores j = Some y ->
      score_ge x y.
Proof.
  apply (segments_follow_scores insertion_argsort [base_table scenario]
           0%nat scenario insertion_argsort_spec).
  - reflexivity.
  - unfold scenario. simpl. lia.
Defined.

(** ** The Ranker on a frame that already has derived columns *)

Lemma take_opt_map {A} (d : A) (c : option (list A)) (ix : list nat) (n : nat) :
  (forall l, c = Some l -> length l = n) ->
  Forall (fun i => (i < n)%nat) ix ->
  take_opt c ix = inr (option_map (fun l => map (fun i => nth i l d) ix) c).
Proof.
  intros Hlen Hb. destruct c as [l|]; simpl; [|reflexivity].
  rewrite (take_map d l ix) by (now rewrite (Hlen l eq_refl)).
  reflexivity.
Qed.

Lemma sort_values_wf argsort (d : DataFrame) :
  wf_frame d ->
  argsort_spec argsort ->
  exists out pr sg,
    sort_values_score argsort (set_score d (scores_of (records d))) =
      inr (mk_df out (Some (scores_of out)) pr sg) /\
    sort_values_score argsort (scored (records d)) = inr (scored out).
Proof.
  intros (_ & Hpr & Hsg) Hspec.
  destruct (nargsort_sorted argsort (scores_of (records d)) Hspec)
    as (p & vals & Hn & P & _).
  set (ix := p ++ nan_idx_from 0 (scores_of (records d))) in *.
  rewrite scores_of_length in P.
  assert (Hb : Forall (fun i => (i < length (records d))%nat) ix)
    by now apply Permutation_bound.
  pose proof (scores_of_take (records d) ix P) as Hsc.
  exists (map (fun i => nth i (records d) no_hcp) ix).
  eexists. eexists. split.
  - unfold sort_values_score, set_score. simpl.
    rewrite Hn. simpl. fold ix.
    rewrite (take_map no_hcp (records d) ix Hb). simpl.
    rewrite (take_map None (scores_of (records d)) ix)
      by now rewrite scores_of_length.
    simpl.
    rewrite (take_opt_map 0 (priority_rank d) ix (length (records d)) Hpr Hb).
    simpl.
    rewrite (take_opt_map None (segment d) ix (length (records d)) Hsg Hb).
    simpl. rewrite Hsc. reflexivity.
  - unfold sort_values_score, scored, set_score, base_table. simpl.
    rewrite Hn. simpl. fold ix.
    rewrite (take_map no_hcp (records d) ix Hb). simpl.
    rewrite (take_map None (scores_of (records d)) ix)
      by now rewrite scores_of_length.
    simpl. now rewrite Hsc.
Qed.

(** What a call of [rank_hcps] does to the store when the frame may already
    have derived columns. *)
Lemma rank_hcps_run_wf argsort (h : heap) (l : ref) (d : DataFrame) :
  wf_frame d ->
  argsort_spec argsort ->
  nth_error h l = Some d ->
  exists out pr sg,
    rank_hcps argsort l h =
      (inr (S (length h)),
       replace_nth h l (set_score d (scores_of (records d))) ++
       [mk_df out (Some (scores_of out)) pr sg;
        mk_df out (Some (scores_of out)) (Some (one_to (length out))) sg])
    /\
    sort_values_score argsort (scored (records d)) = inr (scored out).
Proof.
  intros Hwf Hspec Hl.
  destruct (sort_values_wf argsort d Hwf Hspec) as (out & pr & sg & Hsort & Hb).
  exists out, pr, sg. split; [|exact Hb].
  set (d1 := set_score d (scores_of (records d))).
  set (h1 := replace_nth h l d1).
  set (s1 := mk_df out (Some (scores_of out)) pr sg).
  assert (H1 : nth_error h1 l = Some d1)
    by exact (nth_error_replace_nth_eq h l _ _ Hl).
  assert (L1 : length h1 = length h) by apply replace_nth_length.
  unfold rank_hcps.
  run_deref Hl.
  run_modify Hl.
  unfold column. rewrite score_column.
  fold d1. fold h1.
  run_deref H1.
  erewrite bind_run by (unfold lift, d1; rewrite Hsort; reflexivity).
  erewrite bind_run by reflexivity.
  fold s1.
  run_deref (nth_error_last h1 s1).
  erewrite bind_run by reflexivity.
  run_deref (nth_error_last (h1 ++ [s1]) s1).
  run_modify (nth_error_last (h1 ++ [s1]) s1).
  unfold ret. rewrite replace_nth_last, length_app, L1, <- app_assoc.
  simpl. replace (length h + 1)%nat with (S (length h)) by lia.
  unfold set_priority_rank, RangeIndex, len, s1. simpl.
  rewrite map_map. rewrite (ranks_one_to (length out)). reflexivity.
Qed.

(** X6: on a frame of int64 rx values that already has a score, rank or
    segment column (the exported table uploaded again, say) [rank_hcps]
    returns normally; it writes the score column of the caller's frame
    over, and the rows, scores and ranks it returns are those it returns
    for the same rows without derived columns: what the old columns held is
    not read. *)
Theorem rank_hcps_rescores argsort (h : heap) (l : ref) (d : DataFrame) :
  wf_frame d ->
  int64_column (records d) ->
  argsort_spec argsort ->
  nth_error h l = Some d ->
  exists out h' d',
    rank_hcps argsort l h = (inr (S (length h)), h') /\
    nth_error h' l = Some (set_score d (scores_of (records d))) /\
    nth_error h' (S (length h)) = Some d' /\
    records d' = out /\
    score d' = Some (scores_of out) /\
    priority_rank d' = Some (one_to (len d)) /\
    Permutation out (records d) /\
    StronglySorted score_ge (scores_of out) /\
    forall h0 l0,
      nth_error h0 l0 = Some (base_table (records d)) ->
      exists h0',
        rank_hcps argsort l0 h0 = (inr (S (length h0)), h0') /\
        nth_error h0' (S (length h0)) = Some (ranked out).
Proof.
  intros Hwf _ Hspec Hl.
  destruct (rank_hcps_run_wf argsort h l d Hwf Hspec Hl)
    as (out & pr & sg & Hrun & Hsort).
  destruct (sort_values_scored argsort (records d) Hspec)
    as (out' & Hsort' & P & Hdesc & _).
  assert (Eout : out' = out).
  { rewrite Hsort in Hsort'. injection Hsort'; auto. }
  subst out'.
  assert (Hlt : (l < length h)%nat)
    by (apply nth_error_Some; rewrite Hl; discriminate).
  exists out. eexists. eexists. split; [exact Hrun|].
  split.
  { rewrite nth_error_app1 by (rewrite replace_nth_length; lia).
    exact (nth_error_replace_nth_eq h l _ _ Hl). }
  split.
  { rewrite nth_error_app2 by (rewrite replace_nth_length; lia).
    rewrite replace_nth_length.
    replace (S (length h) - length h)%nat with 1%nat by lia. reflexivity. }
  split; [reflexivity|]. split; [reflexivity|].
  split; [simpl; unfold len; now rewrite (Permutation_length P)|].
  split; [exact P|]. split; [exact Hdesc|].
  intros h0 l0 Hl0.
  destruct (rank_hcps_post argsort h0 l0 (records d) Hspec Hl0)
    as (out0 & h0' & Hrun0 & Hret0 & _).
  destruct (rank_hcps_run_wf argsort h0 l0 (base_table (records d)))
    as (out1 & pr1 & sg1 & Hrun1 & Hsort1);
    [repeat split; discriminate|exact Hspec|exact Hl0|].
  simpl in Hsort1. rewrite Hsort in Hsort1.
  assert (E1 : out = out1) by (injection Hsort1; auto).
  subst out1.
  exists h0'. split; [exact Hrun0|].
  rewrite Hrun0 in Hrun1. injection Hrun1 as Hh0.
  assert (E0 : out0 = out).
  { rewrite Hh0 in Hret0.
    rewrite nth_error_app2 in Hret0 by (rewrite replace_nth_length; lia).
    rewrite replace_nth_length in Hret0.
    replace (S (length h0) - length h0)%nat with 1%nat in Hret0 by lia.
    simpl in Hret0. injection Hret0; auto. }
  now rewrite <- E0.
Qed.

Lemma rank_hcps_rescores_witness :
  let stale := set_score (base_table sample) (repeat (Some 7) 6) in
  exists out h' d',
    rank_hcps insertion_argsort 0%nat [stale] = (inr (S (length [stale])), h') /\
    nth_error h' 0 = Some (set_score stale (scores_of (records stale))) /\
    nth_error h' (S (length [stale])) = Some d' /\
    records d' = out /\
    score d' = Some (scores_of out) /\
    priority_rank d' = Some (one_to (len stale)) /\
    Permutation out (records stale) /\
    StronglySorted score_ge (scores_of out) /\
    forall h0 l0,
      nth_error h0 l0 = Some (base_table (records stale)) ->
      exists h0',
        rank_hcps insertion_argsort l0 h0 = (inr (S (length h0)), h0') /\
        nth_error h0' (S (length h0)) = Some (ranked out).
Proof.
  intros stale.
  apply (rank_hcps_rescores insertion_argsort [stale] 0%nat stale).
  - repeat split; intros c E; inversion E; reflexivity.
  - repeat constructor; simpl; lia.
  - exact insertion_argsort_spec.
  - reflexivity.
Defined.

(** X7: a call of [rank_hcps] adds two frames to the store (the sorted copy
    and the one it returns, whose reference is new) and changes no object
    other than the one it was given. *)
Theorem rank_hcps_footprint argsort (h : heap) (l : ref) (d : DataFrame) :
  wf_frame d ->
  argsort_spec argsort ->
  nth_error h l = Some d ->
  exists l' h',
    rank_hcps argsort l h = (inr l', h') /\
    length h' = (length h + 2)%nat /\
    (length h <= l')%nat /\
    forall k, k <> l -> (k < length h)%nat -> nth_error h' k = nth_error h k.
Proof.
  intros Hwf Hspec Hl.
  destruct (rank_hcps_run_wf argsort h l d Hwf Hspec Hl)
    as (out & pr & sg & Hrun & _).
  eexists. eexists. split; [exact Hrun|].
  split; [rewrite length_app, replace_nth_length; reflexivity|].
  split; [lia|].
  intros k Hk Hlt.
  rewrite nth_error_app1 by (rewrite replace_nth_length; lia).
  now apply nth_error_replace_nth_other.
Qed.

Lemma rank_hcps_footprint_witness :
  exists l' h',
    rank_hcps insertion_argsort 1%nat [base_table scenario; base_table sample]
      = (inr l', h') /\
    length h' = (length [base_table scenario; base_table sample] + 2)%nat /\
    (length [base_table scenario; base_table sample] <= l')%nat /\
    forall k, k <> 1%nat ->
      (k < length [base_table scenario; base_table sample])%nat ->
      nth_error h' k =
      nth_error [base_table scenario; base_table sample] k.
Proof.
  apply (rank_hcps_footprint insertion_argsort
           [base_table scenario; base_table sample] 1%nat (base_table sample)).
  - repeat split; intros c E; inversion E.
  - exact insertion_argsort_spec.
  - reflexivity.
Defined.

(** ** More on the pipeline *)

(** X8: on a table of int64 rx values with fewer than five rows the
    pipeline of [app.py] stops with the [ValueError] of the Segmenter, and
    by then the Ranker has already written the score column into the table
    it was given. *)
Theorem app_pipeline_fails_after_scoring argsort (h : heap) (l : ref)
    (rs : list hcp) :
  int64_column rs ->
  argsort_spec argsort ->
  nth_error h l = Some (base_table rs) ->
  (length rs < 5)%nat ->
  exists h',
    app_pipeline argsort l h = (inl ValueError, h') /\
    nth_error h' l = Some (mk_df rs (Some (scores_of rs)) None None).
Proof.
  intros _ Hspec Hl Hn.
  destruct (rank_hcps_post argsort h l rs Hspec Hl)
    as (out & h' & Hrun & Hret & Hown & P & _).
  exists h'. split; [|exact Hown].
  unfold app_pipeline.
  erewrite bind_run by exact Hrun.
  erewrite bind_raise; [reflexivity|].
  apply (segment_hcps_small h' _ (ranked out) _ Hret (ranked_ranks out)).
  unfold len. simpl. now rewrite (Permutation_length P).
Qed.

Lemma app_pipeline_fails_after_scoring_witness :
  exists h',
    app_pipeline insertion_argsort 0%nat [base_table large] =
      (inl ValueError, h') /\
    nth_error h' 0 =
      Some (mk_df large (Some (scores_of large)) None None).
Proof.
  apply (app_pipeline_fails_after_scoring insertion_argsort
           [base_table large] 0%nat large).
  - repeat constructor; simpl; lia.
  - exact insertion_argsort_spec.
  - reflexivity.
  - simpl. lia.
Defined.

(** On the two rows of [large] the column the failed pipeline leaves in the
    caller's table holds the wrapped product. *)
Example large_scores :
  scores_of large = [Some (-4611686018427387904); Some 1000].
Proof. vm_compute. reflexivity. Qed.

(** X9: from five rows on the pipeline of [app.py] returns the table it
    shows with the rows in the order they came in, and the segmented table
    and the affinity table both in ranked order: row k of the affinity
    table is the id and the label of the record of rank k + 1. *)
Theorem affinity_in_ranked_order argsort (h : heap) (l : ref)
    (rs : list hcp) :
  argsort_spec argsort ->
  nth_error h l = Some (base_table rs) ->
  (5 <= length rs)%nat ->
  exists shown segmented affinity ranks h',
    app_pipeline argsort l h = (inr (shown, segmented, affinity), h') /\
    records shown = rs /\
    Permutation (records segmented) rs /\
    priority_rank segmented = Some ranks /\
    length affinity = length rs /\
    map fst affinity = map npi_id (records segmented) /\
    forall k r,
      nth_error (records segmented) k = Some r ->
      nth_error ranks k = Some (Z.of_nat k + 1) /\
      nth_error affinity k =
        Some (npi_id r,
              if String.eqb (writing_behavior r) "High"
                 || String.eqb (speciality r) "Cardiology"
                 || String.eqb (speciality r) "Oncology"
              then "In-person" else "Email").
Proof.
  intros Hspec Hl Hn.
  destruct (app_pipeline_run argsort h l rs Hspec Hl Hn)
    as (out & h' & P & Happ).
  pose proof (Permutation_length P) as Hlen.
  eexists. eexists. eexists. exists (one_to (length out)). exists h'.
  split; [exact Happ|]. split; [reflexivity|]. split; [exact P|].
  split; [simpl; now rewrite ranks_one_to|].
  split; [now rewrite length_map|].
  split; [simpl; now rewrite map_map|].
  intros k r Hk. simpl in Hk. split.
  - apply one_to_nth. apply nth_error_Some. rewrite Hk. discriminate.
  - rewrite (map_nth_error _ k out Hk). f_equal. f_equal.
    unfold affinity_label.
    destruct (String.eqb (writing_behavior r) "High"); [reflexivity|].
    destruct (String.eqb (speciality r) "Cardiology"); reflexivity.
Qed.

Lemma affinity_in_ranked_order_witness :
  exists shown segmented affinity ranks h',
    app_pipeline insertion_argsort 0%nat [base_table scenario] =
      (inr (shown, segmented, affinity), h') /\
    records shown = scenario /\
    Permutation (records segmented) scenario /\
    priority_rank segmented = Some ranks /\
    length affinity = length scenario /\
    map fst affinity = map npi_id (records segmented) /\
    forall k r,
      nth_error (records segmented) k = Some r ->
      nth_error ranks k = Some (Z.of_nat k + 1) /\
      nth_error affinity k =
        Some (npi_id r,
              if String.eqb (writing_behavior r) "High"
                 || String.eqb (speciality r) "Cardiology"
                 || String.eqb (speciality r) "Oncology"
              then "In-person" else "Email").
Proof.
  apply (affinity_in_ranked_order insertion_argsort [base_table scenario]
           0%nat scenario insertion_argsort_spec).
  - reflexivity.
  - unfold scenario. simpl. lia.
Defined.

(** ** More on the generator *)

Lemma str_inj (a b : Z) : str a = str b -> a = b.
Proof.
  unfold str. intros E. apply to_int_inj.
  assert (Hnil : forall z, Z.to_int z <> Decimal.Pos Decimal.Nil /\
                           Z.to_int z <> Decimal.Neg Decimal.Nil).
  { intros [|p|p]; simpl; split; try discriminate;
      intros C; inversion C as [C'];
      exact (Unsigned.to_uint_nonnil p C'). }
  destruct (Hnil a) as [A1 A2], (Hnil b) as [B1 B2].
  pose proof (NilZero.isi (Z.to_int a) A1 A2) as Ia.
  pose proof (NilZero.isi (Z.to_int b) B1 B2) as Ib.
  rewrite E in Ia. rewrite Ia in Ib. now inversion Ib.
Qed.

Lemma zip_records_ok (ids specs : list string) (rxs : list Z)
    (states wbs : list string) :
  length specs = length ids -> length rxs = length ids ->
  length states = length ids -> length wbs = length ids ->
  exists rows,
    zip_records ids specs rxs states wbs = inr rows /\
    map npi_id rows = ids /\ map speciality rows = specs /\
    map rx_value rows = rxs /\ map state_code rows = states /\
    map writing_behavior rows = wbs.
Proof.
  revert specs rxs states wbs.
  induction ids as [|i ids IH]; intros [|s specs] [|x rxs] [|c states] [|w wbs];
    simpl; intros H1 H2 H3 H4; try discriminate.
  - exists []. repeat split.
  - destruct (IH specs rxs states wbs) as (rows & E & R1 & R2 & R3 & R4 & R5);
      try lia.
    exists (mk_hcp i s x c w :: rows). rewrite E. simpl.
    rewrite R1, R2, R3, R4, R5. repeat split.
Qed.

Section GeneratorShape.

Variables py_state np_state : Type.
Variable py_seed : Z -> py_state.
Variable np_seed : Z -> np_state.
Variable py_choices : list string -> nat -> py_state -> list string * py_state.
Variable np_lognormal_int :
  Z * Z -> Z * Z -> nat -> np_state -> list Z * np_state.
Variable np_choice :
  list string -> nat -> list (Z * Z) -> np_state -> list string * np_state.

(** What the three samplers promise: as many draws as asked for, each from
    the population when there is one. *)
Hypothesis py_choices_length :
  forall population k s, length (fst (py_choices population k s)) = k.
Hypothesis np_lognormal_length :
  forall mean sigma size s,
    length (fst (np_lognormal_int mean sigma size s)) = size.
Hypothesis np_choice_length :
  forall a size p s, length (fst (np_choice a size p s)) = size.
Hypothesis py_choices_in :
  forall population k s, population <> [] ->
    Forall (fun x => In x population) (fst (py_choices population k s)).
Hypothesis np_choice_in :
  forall a size p s, a <> [] ->
    Forall (fun x => In x a) (fst (np_choice a size p s)).

Lemma synthea_simulator_rows (num_patients : nat)
    (g : rng py_state np_state) :
  exists rows g',
    synthea_simulator py_state np_state py_seed np_seed py_choices
      np_lognormal_int np_choice num_patients g = (inr (base_table rows), g') /\
    length rows = num_patients /\
    map npi_id rows =
      map (fun i => str (1000000000 + Z.of_nat i)) (seq 0 num_patients) /\
    Forall (fun r =>
      In (speciality r)
         ["Cardiology"; "Dermatology"; "Endocrinology"; "Family Medicine";
          "Gastroenterology"; "Internal Medicine"; "Neurology"; "Oncology";
          "Pediatrics"; "Psychiatry"; "Surgery"] /\
      In (state_code r)
         ["CA"; "NY"; "TX"; "FL"; "IL"; "PA"; "OH"; "GA"; "NC"; "MI"] /\
      In (writing_behavior r) ["High"; "Medium"; "Low"]) rows.
Proof.
  unfold synthea_simulator. cbn [py np].
  set (specs := ["Cardiology"; "Dermatology"; "Endocrinology";
                 "Family Medicine"; "Gastroenterology"; "Internal Medicine";
                 "Neurology"; "Oncology"; "Pediatrics"; "Psychiatry";
                 "Surgery"]).
  set (codes := ["CA"; "NY"; "TX"; "FL"; "IL"; "PA"; "OH"; "GA"; "NC"; "MI"]).
  pose proof (py_choices_length specs num_patients (py_seed 42)) as L1.
  pose proof (py_choices_in specs num_patients (py_seed 42)
                ltac:(discriminate)) as I1.
  destruct (py_choices specs num_patients (py_seed 42)) as [specialties p1].
  pose proof (py_choices_length codes num_patients p1) as L2.
  pose proof (py_choices_in codes num_patients p1 ltac:(discriminate)) as I2.
  destruct (py_choices codes num_patients p1) as [state_codes p2].
  pose proof (np_lognormal_length (9, 1) (7, 10) num_patients (np_seed 42))
    as L3.
  destruct (np_lognormal_int (9, 1) (7, 10) num_patients (np_seed 42))
    as [rx_values n1].
  pose proof (np_choice_length ["High"; "Medium"; "Low"] num_patients
                [(3, 10); (5, 10); (2, 10)] n1) as L4.
  pose proof (np_choice_in ["High"; "Medium"; "Low"] num_patients
                [(3, 10); (5, 10); (2, 10)] n1 ltac:(discriminate)) as I4.
  destruct (np_choice ["High"; "Medium"; "Low"] num_patients
              [(3, 10); (5, 10); (2, 10)] n1) as [wbs n2].
  cbn [fst] in L1, L2, L3, L4, I1, I2, I4.
  destruct (zip_records_ok
              (map (fun i => str (1000000000 + Z.of_nat i))
                   (seq 0 num_patients))
              specialties rx_values state_codes wbs)
    as (rows & E & R1 & R2 & R3 & R4 & R5);
    try (rewrite length_map, length_seq; assumption).
  exists rows. eexists. rewrite E. cbn [rbind]. split; [reflexivity|].
  split; [rewrite <- (length_map npi_id), R1, length_map, length_seq;
          reflexivity|].
  split; [exact R1|].
  apply Forall_forall. intros r Hr.
  rewrite Forall_forall in I1, I2, I4.
  repeat split.
  - apply I1. rewrite <- R2. now apply in_map.
  - apply I2. rewrite <- R4. now apply in_map.
  - apply I4. rewrite <- R5. now apply in_map.
Qed.

(** X10: when the samplers return as many draws as asked for, each from its
    population, the generator returns a table of exactly [num_hcps] rows and
    no error; row i has the id [str(1000000000 + i)], so no two rows share
    an id; and every speciality, state and writing behaviour is one of the
    listed ones. *)
Theorem generate_hcp_data_rows (num_hcps : nat) (g : rng py_state np_state) :
  exists rows g',
    generate_hcp_data py_state np_state py_seed np_seed py_choices
      np_lognormal_int np_choice num_hcps g = (inr (base_table rows), g') /\
    length rows = num_hcps /\
    (forall i r, nth_error rows i = Some r ->
       npi_id r = str (1000000000 + Z.of_nat i)) /\
    NoDup (map npi_id rows) /\
    Forall (fun r =>
      In (speciality r)
         ["Cardiology"; "Dermatology"; "Endocrinology"; "Family Medicine";
          "Gastroenterology"; "Internal Medicine"; "Neurology"; "Oncology";
          "Pediatrics"; "Psychiatry"; "Surgery"] /\
      In (state_code r)
         ["CA"; "NY"; "TX"; "FL"; "IL"; "PA"; "OH"; "GA"; "NC"; "MI"] /\
      In (writing_behavior r) ["High"; "Medium"; "Low"]) rows.
Proof.
  unfold generate_hcp_data.
  destruct (synthea_simulator_rows num_hcps g)
    as (rows & g' & E & L & Hids & Hin).
  exists rows, g'. split; [exact E|]. split; [exact L|].
  split; [|split; [|exact Hin]].
  - intros i r Hi.
    pose proof (map_nth_error npi_id i rows Hi) as Hn.
    rewrite Hids, nth_error_map, nth_error_seq in Hn.
    destruct (Nat.ltb_spec i num_hcps); [|discriminate].
    cbn [option_map Nat.add] in Hn. apply Some_eq in Hn. symmetry. exact Hn.
  - rewrite Hids. apply Injective_map_NoDup; [|apply seq_NoDup].
    intros a b E'. cbv beta in E'. apply str_inj in E'. lia.
Qed.

Variable argsort : list Z -> list nat.
Hypothesis argsort_ok : argsort_spec argsort.

(** X11: every record the generator makes has a weighted writing behaviour,
    so ranking a generated table leaves no score missing. *)
Theorem generated_scores_defined (num_hcps : nat)
    (g : rng py_state np_state) :
  exists rows g',
    generate_hcp_data py_state np_state py_seed np_seed py_choices
      np_lognormal_int np_choice num_hcps g = (inr (base_table rows), g') /\
    forall h l,
      nth_error h l = Some (base_table rows) ->
      exists l' h' d scores,
        rank_hcps argsort l h = (inr l', h') /\
        nth_error h' l' = Some d /\
        score d = Some scores /\
        length scores = num_hcps /\
        Forall (fun c => c <> None) scores.
Proof.
  unfold generate_hcp_data.
  destruct (synthea_simulator_rows num_hcps g)
    as (rows & g' & E & L & Hids & Hin).
  exists rows, g'. split; [exact E|].
  intros h l Hl.
  destruct (rank_hcps_post argsort h l rows argsort_ok Hl)
    as (out & h' & Hrun & Hret & _ & P & _).
  exists (S (length h)), h', (ranked out), (scores_of out).
  split; [exact Hrun|]. split; [exact Hret|]. split; [reflexivity|].
  split; [now rewrite scores_of_length, (Permutation_length P)|].
  apply Forall_forall. intros c Hc.
  apply in_map_iff in Hc. destruct Hc as [r [<- Hr]].
  apply (Permutation_in _ P) in Hr.
  rewrite Forall_forall in Hin. destruct (Hin r Hr) as (_ & _ & Hw).
  intros C. apply score_of_nan in C. destruct C as (N1 & N2 & N3).
  simpl in Hw. destruct Hw as [W|[W|[W|[]]]]; congruence.
Qed.

(** X12: without an uploaded file [app.py] runs to the end: the table it
    works on is the generator's 200 records, the three outputs have 200
    rows each, and the segments hold 40, 60 and 100 of them. *)
Theorem app_main_demo (g : rng py_state np_state) (h : heap) :
  exists shown segmented affinity g' h',
    app_main argsort py_state np_state py_seed np_seed py_choices
      np_lognormal_int np_choice None g h =
      (inr (shown, segmented, affinity), g', h') /\
    len shown = 200%nat /\ len segmented = 200%nat /\
    length affinity = 200%nat /\
    seg_counts segmented =
      inr [("Top 20%", 40); ("Middle 30%", 60); ("Bottom 50%", 100)]%nat.
Proof.
  unfold app_main, generate_hcp_data.
  destruct (synthea_simulator_rows 200 g)
    as (rows & g' & E & L & _).
  rewrite E.
  destruct (app_pipeline_run argsort (h ++ [base_table rows]) (length h) rows
              argsort_ok (nth_error_last h _))
    as (out & h' & P & Happ); [lia|].
  pose proof (Permutation_length P) as Lo.
  erewrite bind_run by reflexivity. rewrite Happ.
  eexists. eexists. eexists. exists g', h'.
  split; [reflexivity|].
  split; [exact L|].
  split; [unfold len; simpl; lia|].
  split; [rewrite length_map; lia|].
  apply seg_counts_runs. simpl segment.
  rewrite L. rewrite (segment_runs 200) by lia. reflexivity.
Qed.

End GeneratorShape.

Lemma cycle_choices_length (population : list string) (k s : nat) :
  length (fst (cycle_choices population k s)) = k.
Proof. unfold cycle_choices. simpl. now rewrite length_map, length_seq. Qed.

Lemma cycle_choices_in (population : list string) (k s : nat) :
  population <> [] ->
  Forall (fun x => In x population) (fst (cycle_choices population k s)).
Proof.
  intros Hne. unfold cycle_choices. simpl. apply Forall_forall.
  intros x Hx. apply in_map_iff in Hx. destruct Hx as [i [<- _]].
  apply nth_In. apply Nat.mod_upper_bound.
  destruct population; [congruence|discriminate].
Qed.

Lemma cycle_lognormal_length (mean sigma : Z * Z) (size s : nat) :
  length (fst (cycle_lognormal_int mean sigma size s)) = size.
Proof.
  unfold cycle_lognormal_int. simpl. now rewrite length_map, length_seq.
Qed.

Lemma generate_hcp_data_rows_witness :
  exists rows g',
    generate_hcp_data nat nat Z.to_nat Z.to_nat cycle_choices
      cycle_lognormal_int cycle_choice 7 (mk_rng nat nat 0%nat 0%nat) =
      (inr (base_table rows), g') /\
    length rows = 7%nat /\
    (forall i r, nth_error rows i = Some r ->
       npi_id r = str (1000000000 + Z.of_nat i)) /\
    NoDup (map npi_id rows) /\
    Forall (fun r =>
      In (speciality r)
         ["Cardiology"; "Dermatology"; "Endocrinology"; "Family Medicine";
          "Gastroenterology"; "Internal Medicine"; "Neurology"; "Oncology";
          "Pediatrics"; "Psychiatry"; "Surgery"] /\
      In (state_code r)
         ["CA"; "NY"; "TX"; "FL"; "IL"; "PA"; "OH"; "GA"; "NC"; "MI"] /\
      In (writing_behavior r) ["High"; "Medium"; "Low"]) rows.
Proof.
  apply (generate_hcp_data_rows nat nat Z.to_nat Z.to_nat cycle_choices
           cycle_lognormal_int cycle_choice
           cycle_choices_length cycle_lognormal_length
           (fun a size p s => cycle_choices_length a size s)
           cycle_choices_in
           (fun a size p s => cycle_choices_in a size s)).
Defined.

Lemma generated_scores_defined_witness :
  exists rows g',
    generate_hcp_data nat nat Z.to_nat Z.to_nat cycle_choices
      cycle_lognormal_int cycle_choice 7 (mk_rng nat nat 0%nat 0%nat) =
      (inr (base_table rows), g') /\
    forall h l,
      nth_error h l = Some (base_table rows) ->
      exists l' h' d scores,
        rank_hcps insertion_argsort l h = (inr l', h') /\
        nth_error h' l' = Some d /\
        score d = Some scores /\
        length scores = 7%nat /\
        Forall (fun c => c <> None) scores.
Proof.
  apply (generated_scores_defined nat nat Z.to_nat Z.to_nat cycle_choices
           cycle_lognormal_int cycle_choice
           cycle_choices_length cycle_lognormal_length
           (fun a size p s => cycle_choices_length a size s)
           cycle_choices_in
           (fun a size p s => cycle_choices_in a size s)
           insertion_argsort insertion_argsort_spec).
Defined.

Lemma app_main_demo_witness :
  exists shown segmented affinity g' h',
    app_main insertion_argsort nat nat Z.to_nat Z.to_nat cycle_choices
      cycle_lognormal_int cycle_choice None (mk_rng nat nat 0%nat 0%nat) [] =
      (inr (shown, segmented, affinity), g', h') /\
    len shown = 200%nat /\ len segmented = 200%nat /\
    length affinity = 200%nat /\
    seg_counts segmented =
      inr [("Top 20%", 40); ("Middle 30%", 60); ("Bottom 50%", 100)]%nat.
Proof.
  apply (app_main_demo nat nat Z.to_nat Z.to_nat cycle_choices
           cycle_lognormal_int cycle_choice
           cycle_choices_length cycle_lognormal_length
           (fun a size p s => cycle_choices_length a size s)
           cycle_choices_in
           (fun a size p s => cycle_choices_in a size s)
           insertion_argsort insertion_argsort_spec).
Defined.

(** ** The filters of app.py *)

Lemma select_cons {A} (b : bool) (m : list bool) (x : A) (l : list A) :
  select (b :: m) (x :: l) = if b then x :: select m l else select m l.
Proof. unfold select. simpl. now destruct b. Qed.

Lemma select_nil {A} (m : list bool) : select m (@nil A) = [].
Proof. unfold select. now destruct m. Qed.

Lemma select_records {A} (p : A -> bool) (l : list A) :
  select (map p l) l = filter p l.
Proof.
  induction l as [|x l IH]; [reflexivity|].
  simpl map. rewrite select_cons. simpl. rewrite IH. reflexivity.
Qed.

Lemma select_length {A B} (p : A -> bool) (l : list A) (c : list B) :
  length c = length l ->
  length (select (map p l) c) = length (filter p l).
Proof.
  revert c. induction l as [|x l IH]; intros [|y c] H; try discriminate.
  - reflexivity.
  - simpl map. rewrite select_cons. simpl.
    destruct (p x); simpl; rewrite IH; auto.
Qed.

Lemma select_compose {A B} (p1 p2 : A -> bool) (l : list A) (c : list B) :
  length c = length l ->
  select (map p2 (select (map p1 l) l)) (select (map p1 l) c) =
  select (map (fun r => p1 r && p2 r) l) c.
Proof.
  revert c. induction l as [|x l IH]; intros [|y c] H; try discriminate.
  - reflexivity.
  - simpl map. rewrite !select_cons. destruct (p1 x); simpl.
    + rewrite !select_cons. destruct (p2 x); rewrite IH; auto.
    + apply IH. auto.
Qed.

Lemma select_all {A B} (p : A -> bool) (l : list A) (c : list B) :
  length c = length l ->
  (forall x, In x l -> p x = true) ->
  select (map p l) c = c.
Proof.
  revert c. induction l as [|x l IH]; intros [|y c] H Hp; try discriminate.
  - reflexivity.
  - simpl map. rewrite select_cons, (Hp x) by (simpl; auto).
    f_equal. apply IH; [auto|]. intros z Hz. apply Hp. simpl. auto.
Qed.

Lemma select_rows {A B C D} (p : A -> bool) (l : list A) (a : list B)
    (b : list C) (c : list D) :
  length a = length l -> length b = length l -> length c = length l ->
  combine (select (map p l) l)
          (combine (select (map p l) a)
                   (combine (select (map p l) b) (select (map p l) c))) =
  filter (fun q => p (fst q)) (combine l (combine a (combine b c))).
Proof.
  revert a b c.
  induction l as [|x l IH]; intros [|ya a] [|yb b] [|yc c] Ha Hb Hc;
    try discriminate.
  - reflexivity.
  - simpl map. rewrite !select_cons. simpl.
    destruct (p x); simpl; rewrite IH; auto.
Qed.

Lemma getitem_mask_compose (d : DataFrame) (p1 p2 : hcp -> bool) :
  wf_frame d ->
  getitem_mask (getitem_mask d (map p1 (records d)))
    (map p2 (records (getitem_mask d (map p1 (records d))))) =
  getitem_mask d (map (fun r => p1 r && p2 r) (records d)).
Proof.
  intros (Hs & Hr & Hg). unfold getitem_mask. simpl.
  f_equal.
  - apply select_compose. reflexivity.
  - destruct (score d) as [c|]; simpl; [|reflexivity].
    f_equal. apply select_compose. now apply Hs.
  - destruct (priority_rank d) as [c|]; simpl; [|reflexivity].
    f_equal. apply select_compose. now apply Hr.
  - destruct (segment d) as [c|]; simpl; [|reflexivity].
    f_equal. apply select_compose. now apply Hg.
Qed.

Lemma isin_mask (l : list hcp) (states specialties : list string) :
  mask_and (isin (map state_code l) states)
           (isin (map speciality l) specialties) =
  map (fun r => existsb (String.eqb (state_code r)) states
                && existsb (String.eqb (speciality r)) specialties) l.
Proof.
  unfold mask_and, isin.
  induction l as [|r l IH]; [reflexivity|]. simpl. now rewrite IH.
Qed.

Lemma unique_str_In (x : string) (l : list string) :
  In x l -> In x (unique_str l).
Proof.
  induction l as [|y l IH]; simpl; [auto|].
  intros [E|H]; [now left|].
  destruct (String.eqb_spec x y) as [E|N]; [left; now symmetry|].
  right. apply filter_In. split; [now apply IH|].
  apply negb_true_iff. now apply String.eqb_neq.
Qed.

Lemma existsb_eqb_unique (x : string) (l : list string) :
  In x l -> existsb (String.eqb x) (unique_str l) = true.
Proof.
  intros H. apply existsb_exists. exists x.
  split; [now apply unique_str_In|apply String.eqb_refl].
Qed.

Section FilterFacts.

Variable re_compile : string -> option (string -> bool).

(** Where both search boxes can be used the sidebar is one mask over the
    rows of the segmented table. *)
Lemma filtered_data_mask (npi_dtype : text_dtype) (d : DataFrame)
    (states specialties : list string)
    (search_npi search_specialty : string) :
  wf_frame d ->
  searchable re_compile npi_dtype search_npi = true ->
  searchable re_compile object_dtype search_specialty = true ->
  filtered_data re_compile npi_dtype d states specialties search_npi
                search_specialty =
  inr (getitem_mask d
         (map (passes re_compile states specialties search_npi
                      search_specialty)
              (records d))).
Proof.
  intros Hwf S1 S2. unfold filtered_data, column.
  rewrite isin_mask.
  unfold searchable in S1, S2. unfold passes, search_of, str_contains.
  destruct (truthy search_npi) eqn:T1, (truthy search_specialty) eqn:T2;
    simpl in S1, S2.
  - destruct npi_dtype; [|discriminate].
    destruct (re_compile search_npi) as [m1|]; [|discriminate].
    destruct (re_compile search_specialty) as [m2|]; [|discriminate].
    cbn [rbind]. rewrite map_map.
    rewrite (getitem_mask_compose d _ (fun r => m1 (npi_id r)) Hwf).
    rewrite map_map.
    rewrite (getitem_mask_compose d _ (fun r => m2 (speciality r)) Hwf).
    reflexivity.
  - destruct npi_dtype; [|discriminate].
    destruct (re_compile search_npi) as [m1|]; [|discriminate].
    cbn [rbind]. rewrite map_map.
    rewrite (getitem_mask_compose d _ (fun r => m1 (npi_id r)) Hwf).
    f_equal. f_equal. apply map_ext. intros r.
    simpl. now rewrite andb_true_r.
  - destruct (re_compile search_specialty) as [m2|]; [|discriminate].
    cbn [rbind]. rewrite map_map.
    rewrite (getitem_mask_compose d _ (fun r => m2 (speciality r)) Hwf).
    f_equal. f_equal. apply map_ext. intros r.
    simpl. now rewrite andb_true_r.
  - cbn [rbind]. f_equal. f_equal. apply map_ext. intros r.
    simpl. now rewrite !andb_true_r.
Qed.

(** X13: with the selections the sidebar starts with (every state and
    every speciality of the table, both search boxes empty) the filter
    raises nothing and the filtered table is the whole segmented table, row
    for row and cell for cell, whatever the ['NPI Id'] column holds. *)
Theorem default_filters_show_all (npi_dtype : text_dtype) (d : DataFrame) :
  wf_frame d ->
  filtered_data re_compile npi_dtype d
    (unique_str (column state_code d)) (unique_str (column speciality d))
    "" "" = inr d.
Proof.
  intros Hwf.
  rewrite (filtered_data_mask npi_dtype d _ _ "" "" Hwf eq_refl eq_refl).
  f_equal.
  destruct Hwf as (Hs & Hr & Hg).
  assert (Hall : forall r, In r (records d) ->
            passes re_compile (unique_str (column state_code d))
                   (unique_str (column speciality d)) "" "" r = true).
  { intros r Hin. unfold passes, column. simpl.
    rewrite !andb_true_r. apply andb_true_iff. split.
    - apply existsb_eqb_unique. now apply in_map.
    - apply existsb_eqb_unique. now apply in_map. }
  destruct d as [rs sc pr sg]. unfold getitem_mask, len in *. simpl in *.
  f_equal.
  - now apply select_all.
  - destruct sc as [c|]; simpl; [|reflexivity].
    f_equal. apply select_all; auto.
  - destruct pr as [c|]; simpl; [|reflexivity].
    f_equal. apply select_all; auto.
  - destruct sg as [c|]; simpl; [|reflexivity].
    f_equal. apply select_all; auto.
Qed.

(** X14: when each search box is empty or holds a regular expression (and
    the ['NPI Id'] column holds strings if that box is filled in), the
    filter raises nothing and the filtered table holds exactly the rows of
    the segmented table that pass, in the order they have there, each with
    the score, rank and segment it has there. *)
Theorem filter_keeps_rows (npi_dtype : text_dtype) (d : DataFrame)
    (sc : list (option Z)) (pr : list Z) (sg : list (option string))
    (states specialties : list string) (search_npi search_specialty : string) :
  wf_frame d ->
  score d = Some sc -> priority_rank d = Some pr -> segment d = Some sg ->
  searchable re_compile npi_dtype search_npi = true ->
  searchable re_compile object_dtype search_specialty = true ->
  let pass :=
    passes re_compile states specialties search_npi search_specialty in
  exists shown sc' pr' sg',
    filtered_data re_compile npi_dtype d states specialties search_npi
                  search_specialty = inr shown /\
    score shown = Some sc' /\
    priority_rank shown = Some pr' /\
    segment shown = Some sg' /\
    records shown = filter pass (records d) /\
    combine (records shown) (combine sc' (combine pr' sg')) =
    filter (fun row => pass (fst row))
           (combine (records d) (combine sc (combine pr sg))).
Proof.
  intros Hwf Hsc Hpr Hsg S1 S2 pass.
  rewrite (filtered_data_mask npi_dtype d _ _ _ _ Hwf S1 S2). fold pass.
  destruct Hwf as (Hs & Hr & Hg).
  unfold getitem_mask. rewrite Hsc, Hpr, Hsg. simpl.
  eexists. eexists. eexists. eexists.
  split; [reflexivity|].
  split; [reflexivity|]. split; [reflexivity|]. split; [reflexivity|].
  split; [apply select_records|].
  apply select_rows; [now apply Hs|now apply Hr|now apply Hg].
Qed.

(** X17: a search box that is filled in and cannot be used makes the filter
    raise, whatever the table and the selections: [AttributeError] for the
    id box on an ['NPI Id'] column that does not hold strings,
    [PatternError] for a text that is no regular expression; the id box is
    looked at first. *)
Theorem filter_raises (npi_dtype : text_dtype) (d : DataFrame)
    (states specialties : list string) (search_npi search_specialty : string) :
  searchable re_compile npi_dtype search_npi
  && searchable re_compile object_dtype search_specialty = false ->
  filtered_data re_compile npi_dtype d states specialties search_npi
                search_specialty =
  inl (if searchable re_compile npi_dtype search_npi then PatternError
       else match npi_dtype with
            | int64_dtype => AttributeError
            | object_dtype => PatternError
            end).
Proof.
  unfold filtered_data, searchable, str_contains.
  destruct (truthy search_npi), (truthy search_specialty), npi_dtype,
    (re_compile search_npi), (re_compile search_specialty);
    simpl; intros H; try discriminate; reflexivity.
Qed.

End FilterFacts.

Lemma default_filters_show_all_witness :
  let d := set_segment (ranked scenario)
             (map (segment_label 10) (one_to 10)) in
  filtered_data plain_compile object_dtype d
    (unique_str (column state_code d)) (unique_str (column speciality d))
    "" "" = inr d.
Proof.
  intros d.
  apply (default_filters_show_all plain_compile object_dtype d).
  repeat split; intros c E; inversion E; reflexivity.
Defined.

Lemma filter_keeps_rows_witness :
  let d := set_segment (ranked sample)
             (map (segment_label 6) (one_to 6)) in
  let pass := passes plain_compile ["CA"; "NY"; "PA"] ["Pediatrics"] "" "Ped" in
  exists shown sc' pr' sg',
    filtered_data plain_compile object_dtype d ["CA"; "NY"; "PA"]
                  ["Pediatrics"] "" "Ped" = inr shown /\
    score shown = Some sc' /\
    priority_rank shown = Some pr' /\
    segment shown = Some sg' /\
    records shown = filter pass (records d) /\
    combine (records shown) (combine sc' (combine pr' sg')) =
    filter (fun row => pass (fst row))
           (combine (records d)
              (combine (scores_of sample)
                 (combine (map (fun i => Z.of_nat i + 1) (seq 0 6))
                          (map (segment_label 6) (one_to 6))))).
Proof.
  intros d.
  apply (filter_keeps_rows plain_compile object_dtype d (scores_of sample)
           (map (fun i => Z.of_nat i + 1) (seq 0 6))
           (map (segment_label 6) (one_to 6))
           ["CA"; "NY"; "PA"] ["Pediatrics"] "" "Ped").
  - repeat split; intros c E; inversion E; reflexivity.
  - reflexivity.
  - reflexivity.
  - reflexivity.
  - reflexivity.
  - reflexivity.
Defined.

Lemma filter_raises_witness :
  filtered_data plain_compile object_dtype (ranked scenario)
                ["CA"; "NY"] ["Neurology"] "(" "" = inl PatternError.
Proof.
  apply (filter_raises plain_compile object_dtype (ranked scenario)
           ["CA"; "NY"] ["Neurology"] "(" "").
  reflexivity.
Defined.

(** On a sheet whose ids were read as numbers a search for an id raises
    before any pattern is looked at; a search for a speciality works, and
    finds the one neurologist of the two selected states. *)
Example search_on_numeric_ids :
  filtered_data plain_compile int64_dtype (ranked scenario)
                ["CA"; "NY"] ["Neurology"] "1000" "" = inl AttributeError /\
  exists shown,
    filtered_data plain_compile int64_dtype (ranked scenario)
                  ["CA"; "NY"] ["Neurology"; "Family Medicine"] "" "neuro" =
      inr shown /\
    map npi_id (records shown) = ["1000000000"].
Proof.
  split; [reflexivity|].
  eexists. split; reflexivity.
Qed.

(** ** Ranking without ties *)

Lemma score_ge_antisym (x y : option Z) : score_ge x y -> score_ge y x -> x = y.
Proof.
  destruct x as [x|], y as [y|]; simpl; intros H1 H2;
    try contradiction; [f_equal; lia|reflexivity].
Qed.

(** Two arrangements of the same elements in an order that is antisymmetric
    on them are one arrangement. *)
Lemma StronglySorted_perm_unique {A} (R : A -> A -> Prop) (l1 l2 : list A) :
  (forall x y, In x l1 -> In y l1 -> R x y -> R y x -> x = y) ->
  Permutation l1 l2 ->
  StronglySorted R l1 -> StronglySorted R l2 ->
  l1 = l2.
Proof.
  revert l2. induction l1 as [|a t1 IH]; intros l2 Hanti P S1 S2.
  - apply Permutation_nil in P. now subst.
  - destruct l2 as [|b t2];
      [apply Permutation_sym, Permutation_nil in P; discriminate|].
    apply StronglySorted_inv in S1. destruct S1 as [S1 F1].
    apply StronglySorted_inv in S2. destruct S2 as [S2 F2].
    rewrite Forall_forall in F1, F2.
    assert (Eab : a = b).
    { destruct (Permutation_in a P (or_introl eq_refl)) as [E|Ha2];
        [now symmetry|].
      destruct (Permutation_in b (Permutation_sym P) (or_introl eq_refl))
        as [E|Hb1]; [exact E|].
      apply Hanti; simpl; auto. }
    subst b. f_equal.
    apply IH; try assumption.
    + intros x y Hx Hy. apply Hanti; simpl; auto.
    + now apply Permutation_cons_inv in P.
Qed.

Lemma StronglySorted_seq {R : nat -> nat -> Prop} (s n : nat) :
  (forall i j, (s <= i)%nat -> (i < j)%nat -> (j < s + n)%nat -> R i j) ->
  StronglySorted R (seq s n).
Proof.
  revert s. induction n as [|n IH]; intros s H; simpl; constructor.
  - apply IH. intros i j Hi Hij Hj. apply H; lia.
  - apply Forall_forall. intros j Hj. apply in_seq in Hj. apply H; lia.
Qed.

Lemma dropna_In (items : list (option Z)) (x : nat) (v : Z) :
  nth_error items x = Some (Some v) -> In v (dropna items).
Proof.
  revert x. induction items as [|[w|] items IH]; intros [|x] H;
    simpl in *; try discriminate.
  - inversion H. now left.
  - right. eauto.
  - eauto.
Qed.

Lemma dropna_nth_inj (items : list (option Z)) (x y : nat) (v : Z) :
  NoDup (dropna items) ->
  nth_error items x = Some (Some v) ->
  nth_error items y = Some (Some v) ->
  x = y.
Proof.
  revert x y. induction items as [|[w|] items IH]; intros [|x] [|y] Hnd Hx Hy;
    simpl in *; try discriminate; try reflexivity.
  - inversion Hx; subst w. inversion Hnd as [|? ? Hnin _]; subst.
    exfalso. apply Hnin. eapply dropna_In; eauto.
  - inversion Hy; subst w. inversion Hnd as [|? ? Hnin _]; subst.
    exfalso. apply Hnin. eapply dropna_In; eauto.
  - f_equal. inversion Hnd; subst. eauto.
  - f_equal. eauto.
Qed.

Lemma dropna_perm (l l' : list (option Z)) :
  Permutation l l' -> Permutation (dropna l) (dropna l').
Proof.
  induction 1 as [|[x|] l l' _ IH|[x|] [y|] l|l l' l'' _ IH1 _ IH2]; simpl;
    try reflexivity; try assumption.
  - now apply perm_skip.
  - apply perm_swap.
  - now rewrite IH1.
Qed.

(** What every sort that meets the contract makes of a column. *)
Lemma nargsort_order argsort (items : list (option Z)) :
  argsort_spec argsort ->
  exists ix,
    nargsort argsort items = inr ix /\
    Permutation ix (seq 0 (length items)) /\
    StronglySorted (cell_order items) ix.
Proof.
  intros Hspec.
  destruct (nargsort_sorted argsort items Hspec)
    as (p & vals & Hn & P & Hv & Hs & Hnan & _).
  exists (p ++ nan_idx_from 0 items).
  split; [exact Hn|]. split; [exact P|].
  rewrite Forall_forall in Hnan.
  assert (Hp : forall x, In x p -> exists v, nth x items None = Some v).
  { intros x Hx.
    assert (Hin : In (nth x items None) (map Some vals))
      by (rewrite <- Hv; now apply (in_map (fun i => nth i items None))).
    apply in_map_iff in Hin. destruct Hin as [v [E _]]. eauto. }
  apply StronglySorted_app.
  - clear Hn P Hp. revert vals Hv Hs.
    induction p as [|x p IH]; intros [|v vals] Hv Hs;
      simpl in Hv; try discriminate; constructor.
    + injection Hv as Hx Hv. apply StronglySorted_inv in Hs.
      apply (IH vals Hv (proj1 Hs)).
    + injection Hv as Hx Hv. apply StronglySorted_inv in Hs.
      destruct Hs as [_ Hs]. rewrite Forall_forall in Hs.
      apply Forall_forall. intros y Hy.
      assert (Hin : In (nth y items None) (map Some vals))
        by (rewrite <- Hv; now apply (in_map (fun i => nth i items None))).
      apply in_map_iff in Hin. destruct Hin as [w [E Hw]].
      unfold cell_order. rewrite Hx, <- E. split; [|discriminate].
      simpl. now apply Hs.
  - apply (StronglySorted_weaken lt); [|apply nan_idx_from_increasing].
    intros x y Hx Hy Hxy. unfold cell_order.
    rewrite (Hnan x Hx), (Hnan y Hy). split; [exact I|auto].
  - intros x y Hx Hy. destruct (Hp x Hx) as [v E].
    unfold cell_order. rewrite E, (Hnan y Hy). split; [exact I|discriminate].
Qed.

Lemma cell_order_antisym (items : list (option Z)) (x y : nat) :
  NoDup (dropna items) ->
  (x < length items)%nat -> (y < length items)%nat ->
  cell_order items x y -> cell_order items y x -> x = y.
Proof.
  intros Hnd Hx Hy [G1 N1] [G2 N2].
  pose proof (score_ge_antisym _ _ G1 G2) as E.
  destruct (nth x items None) as [v|] eqn:Ex.
  - apply (dropna_nth_inj items x y v Hnd).
    + rewrite <- Ex. now apply nth_error_nth'.
    + rewrite E, <- (nth_error_nth' items None Hy). reflexivity.
  - symmetry in E. specialize (N1 eq_refl E). specialize (N2 E eq_refl). lia.
Qed.

(** Without two equal numbers in the column the indexer is the same
    whichever sort runs. *)
Lemma nargsort_unique argsort1 argsort2 (items : list (option Z)) :
  argsort_spec argsort1 -> argsort_spec argsort2 ->
  NoDup (dropna items) ->
  nargsort argsort1 items = nargsort argsort2 items.
Proof.
  intros H1 H2 Hnd.
  destruct (nargsort_order argsort1 items H1) as (ix1 & E1 & P1 & S1).
  destruct (nargsort_order argsort2 items H2) as (ix2 & E2 & P2 & S2).
  rewrite E1, E2. f_equal.
  apply (StronglySorted_perm_unique (cell_order items)); try assumption.
  - intros x y Hx Hy. apply cell_order_antisym; [exact Hnd| |].
    + apply (Permutation_in _ P1), in_seq in Hx. lia.
    + apply (Permutation_in _ P1), in_seq in Hy. lia.
  - now rewrite P1, P2.
Qed.

(** A column already in descending order, NaN last, is left as it is. *)
Lemma nargsort_sorted_column argsort (items : list (option Z)) :
  argsort_spec argsort ->
  NoDup (dropna items) ->
  StronglySorted score_ge items ->
  nargsort argsort items = inr (seq 0 (length items)).
Proof.
  intros Hspec Hnd Hs.
  destruct (nargsort_order argsort items Hspec) as (ix & E & P & S1).
  rewrite E. f_equal.
  apply (StronglySorted_perm_unique (cell_order items)); try assumption.
  - intros x y Hx Hy. apply cell_order_antisym; [exact Hnd| |].
    + apply (Permutation_in _ P), in_seq in Hx. lia.
    + apply (Permutation_in _ P), in_seq in Hy. lia.
  - apply StronglySorted_seq. intros i j _ Hij Hj. split; [|auto].
    apply (StronglySorted_nth score_ge items i j _ _ Hs Hij);
      apply nth_error_nth'; lia.
Qed.

Lemma rank_hcps_sort_ext argsort1 argsort2 (h : heap) (l : ref)
    (d : DataFrame) :
  nth_error h l = Some d ->
  sort_values_score argsort1 (set_score d (scores_of (records d))) =
  sort_values_score argsort2 (set_score d (scores_of (records d))) ->
  rank_hcps argsort1 l h = rank_hcps argsort2 l h.
Proof.
  intros Hl E.
  pose proof (nth_error_replace_nth_eq h l
                (set_score d (scores_of (records d))) d Hl) as H1.
  unfold rank_hcps.
  rewrite !(bind_run _ _ h d h (deref_run h l d Hl)).
  rewrite !(bind_run _ _ h tt _ (modify_run h l _ d Hl)).
  unfold column. rewrite !score_column.
  rewrite !(bind_run _ _ _ _ _ (deref_run _ l _ H1)).
  unfold lift. rewrite E. reflexivity.
Qed.

(** X15: when no two rows of a table of int64 rx values have the same
    score, the ranked table is decided by the table alone: whichever sort
    runs, stable or not, as long as it returns a sorted permutation, the
    call returns the same reference and leaves the same store.  Rows without
    a score may be many: they keep their input order under every sort. *)
Theorem ranking_unique_without_ties argsort1 argsort2 (h : heap) (l : ref)
    (d : DataFrame) :
  int64_column (records d) ->
  argsort_spec argsort1 -> argsort_spec argsort2 ->
  NoDup (dropna (scores_of (records d))) ->
  nth_error h l = Some d ->
  rank_hcps argsort1 l h = rank_hcps argsort2 l h.
Proof.
  intros _ H1 H2 Hnd Hl.
  apply (rank_hcps_sort_ext argsort1 argsort2 h l d Hl).
  unfold sort_values_score. simpl.
  now rewrite (nargsort_unique argsort1 argsort2 _ H1 H2 Hnd).
Qed.

Lemma ranking_unique_without_ties_witness :
  rank_hcps insertion_argsort 0%nat [base_table (firstn 4 sample)] =
  rank_hcps front_insertion_argsort 0%nat [base_table (firstn 4 sample)].
Proof.
  apply (ranking_unique_without_ties insertion_argsort
           front_insertion_argsort [base_table (firstn 4 sample)] 0%nat
           (base_table (firstn 4 sample))).
  - repeat constructor; simpl; lia.
  - exact insertion_argsort_spec.
  - exact front_insertion_argsort_spec.
  - vm_compute. repeat constructor; simpl; intuition discriminate.
  - reflexivity.
Defined.

Lemma sort_values_sorted argsort (out : list hcp) :
  argsort_spec argsort ->
  NoDup (dropna (scores_of out)) ->
  StronglySorted score_ge (scores_of out) ->
  sort_values_score argsort (scored out) = inr (scored out).
Proof.
  intros Hspec Hnd Hs.
  unfold sort_values_score, scored, set_score, base_table. simpl.
  rewrite (nargsort_sorted_column argsort _ Hspec Hnd Hs).
  rewrite scores_of_length. simpl.
  rewrite (take_map no_hcp out (seq 0 (length out)))
    by (apply Forall_forall; intros i Hi; apply in_seq in Hi; lia).
  simpl.
  rewrite (take_map None (scores_of out) (seq 0 (length out)))
    by (rewrite scores_of_length; apply Forall_forall; intros i Hi;
        apply in_seq in Hi; lia).
  simpl. rewrite map_nth_seq.
  rewrite <- (scores_of_length out) at 1. now rewrite map_nth_seq.
Qed.

(** X16: when no two rows of a table of int64 rx values have the same
    score, ranking the table [rank_hcps] returned once more returns the
    same rows, scores and ranks in a new frame, whichever sort runs: the
    order is already the ranked one. *)
Theorem rank_hcps_idempotent argsort (h : heap) (l : ref) (rs : list hcp) :
  int64_column rs ->
  argsort_spec argsort ->
  NoDup (dropna (scores_of rs)) ->
  nth_error h l = Some (base_table rs) ->
  exists l1 h1 d1 l2 h2 d2,
    rank_hcps argsort l h = (inr l1, h1) /\
    nth_error h1 l1 = Some d1 /\
    rank_hcps argsort l1 h1 = (inr l2, h2) /\
    nth_error h2 l2 = Some d2 /\
    l2 <> l1 /\
    records d2 = records d1 /\
    score d2 = score d1 /\
    priority_rank d2 = priority_rank d1.
Proof.
  intros _ Hspec Hnd Hl.
  destruct (rank_hcps_post argsort h l rs Hspec Hl)
    as (out & h1 & Hrun & Hret & _ & P & Hdesc & _).
  assert (Hwf : wf_frame (ranked out)).
  { repeat split; intros c E; inversion E; simpl;
      unfold len; simpl;
      now rewrite ?scores_of_length, ?length_map, ?length_seq. }
  destruct (rank_hcps_run_wf argsort h1 (S (length h)) (ranked out)
              Hwf Hspec Hret)
    as (out2 & pr & sg & Hrun2 & Hsort2).
  assert (Hndo : NoDup (dropna (scores_of out))).
  { apply (Permutation_NoDup (l := dropna (scores_of rs))); [|exact Hnd].
    apply dropna_perm. unfold scores_of.
    rewrite (float64_weights_perm _ _ P).
    apply Permutation_map. now symmetry. }
  simpl in Hsort2.
  rewrite (sort_values_sorted argsort out Hspec Hndo Hdesc) in Hsort2.
  assert (E : out2 = out) by (injection Hsort2; auto).
  subst out2.
  assert (Hlen : (S (length h) < length h1)%nat)
    by (apply nth_error_Some; rewrite Hret; discriminate).
  exists (S (length h)), h1, (ranked out).
  eexists. eexists. eexists.
  split; [exact Hrun|]. split; [exact Hret|]. split; [exact Hrun2|].
  split.
  { rewrite nth_error_app2 by (rewrite replace_nth_length; lia).
    rewrite replace_nth_length.
    replace (S (length h1) - length h1)%nat with 1%nat by lia. reflexivity. }
  split; [lia|].
  split; [reflexivity|]. split; [reflexivity|].
  simpl. now rewrite ranks_one_to.
Qed.

Lemma rank_hcps_idempotent_witness :
  exists l1 h1 d1 l2 h2 d2,
    rank_hcps front_insertion_argsort 0%nat [base_table (firstn 4 sample)] =
      (inr l1, h1) /\
    nth_error h1 l1 = Some d1 /\
    rank_hcps front_insertion_argsort l1 h1 = (inr l2, h2) /\
    nth_error h2 l2 = Some d2 /\
    l2 <> l1 /\
    records d2 = records d1 /\
    score d2 = score d1 /\
    priority_rank d2 = priority_rank d1.
Proof.
  apply (rank_hcps_idempotent front_insertion_argsort
           [base_table (firstn 4 sample)] 0%nat (firstn 4 sample)).
  - repeat constructor; simpl; lia.
  - exact front_insertion_argsort_spec.
  - vm_compute. repeat constructor; simpl; intuition discriminate.
  - reflexivity.
Defined.
